(** * Dataset analysis and golden-dataset construction

    A shallow embedding of the Python scripts of the repository that
    compare, analyse and build JSONL datasets:
    - [load_jsonl] (analyze_top_miners.py, prepare_golden_dataset.py and
      check_datasets.py),
    - [get_dataset_hash] and [find_entry_positions] (analyze_top_miners.py),
    - [find_golden_entries] and [prepare_golden_dataset]
      (prepare_golden_dataset.py),
    - [count_similar], [check_miner_vs_eval] and the summary of
      [check_all_datasets] (check_datasets.py),
    - check 1, the duplicate-group loop and the summary of
      [compare_datasets] (compare_datasets.py),
    - [find_unique_entries] and [main] (prepare_unique_dataset.py),
    - [sort_dataset_file] (sort_all_datasets.py).

    A record is any value of a type [Entry]; the scripts only ever look at
    it through [json.dumps(entry, sort_keys=True)], written [dumps] here.
    Python dicts whose iteration order matters are association lists kept
    in insertion order; sets are lists with membership tests. *)

From Stdlib Require Import ZArith Lia Ascii String DecimalString.
From stdpp Require Import base list sorting strings.

(** ** Dict helpers *)

(** [d.get(k)] on a dict from fingerprints to positions, kept in
    insertion order. *)
Fixpoint lookup_str (k : string) (d : list (string * nat)) : option nat :=
  match d with
  | [] => None
  | (k', v) :: d' => if String.eqb k k' then Some v else lookup_str k d'
  end.

(** [counter[k] += 1] on a [Counter] / [dict] from positions to counts;
    a new key is appended at the end, as a Python dict does. *)
Fixpoint counter_incr (k : nat) (c : list (nat * Z)) : list (nat * Z) :=
  match c with
  | [] => [(k, 1%Z)]
  | (k', v) :: c' =>
      if Nat.eqb k k' then (k', (v + 1)%Z) :: c' else (k', v) :: counter_incr k c'
  end.

(** [counter[k]] (a [Counter] yields 0 for a missing key). *)
Fixpoint counter_get (k : nat) (c : list (nat * Z)) : Z :=
  match c with
  | [] => 0%Z
  | (k', v) :: c' => if Nat.eqb k k' then v else counter_get k c'
  end.

(** ** Loading JSONL resources *)

Section Loading.

(** [json.loads] on one line: [None] when it raises. *)
Context {J : Type} (json_loads : string -> option J).

(** [load_jsonl] of analyze_top_miners.py and prepare_golden_dataset.py:
    every line goes through [json.loads] inside [try ... except: pass]. *)
Definition load_jsonl_lenient (lines : list string) : list J :=
  omap json_loads lines.

(** Characters for which Python's [str.isspace] holds, on ASCII. *)
Definition is_py_space (c : ascii) : bool :=
  let n := nat_of_ascii c in
  (Nat.leb 9 n && Nat.leb n 13) || (Nat.leb 28 n && Nat.leb n 32).

Fixpoint drop_space (l : list ascii) : list ascii :=
  match l with
  | c :: l' => if is_py_space c then drop_space l' else l
  | [] => []
  end.

(** [line.strip()] *)
Definition strip (s : string) : string :=
  string_of_list_ascii
    (rev (drop_space (rev (drop_space (list_ascii_of_string s))))).

(** The list comprehension
    [[json.loads(line.strip()) for line in f if line.strip()]]: the first
    line on which [json.loads] raises makes the whole call raise ([None]). *)
Fixpoint load_strict_lines (lines : list string) : option (list J) :=
  match lines with
  | [] => Some []
  | l :: ls =>
      let t := strip l in
      if String.eqb t EmptyString then load_strict_lines ls
      else match json_loads t with
           | None => None
           | Some v =>
               match load_strict_lines ls with
               | None => None
               | Some vs => Some (v :: vs)
               end
           end
  end.

(** [load_jsonl(path, max_rows=None)] of check_datasets.py (and
    prepare_unique_dataset.py), documented as the validator's loader. *)
Definition load_jsonl_strict (max_rows : option nat) (lines : list string)
  : option (list J) :=
  match load_strict_lines lines with
  | None => None
  | Some data =>
      Some (match max_rows with None => data | Some n => take n data end)
  end.

End Loading.

(** A recognizer of JSON text (RFC 8259) standing for [json.loads] in
    concrete runs: it accepts a line when [json.loads] returns, up to the
    Python extensions [NaN] and [Infinity]. *)
Module JsonText.

Definition quote : ascii := ascii_of_nat 34.
Definition backslash : ascii := ascii_of_nat 92.

Definition ascii_eqb (a b : ascii) : bool := if ascii_dec a b then true else false.

Definition is_ws (c : ascii) : bool :=
  match nat_of_ascii c with 9 | 10 | 13 | 32 => true | _ => false end.

Definition is_digit (c : ascii) : bool :=
  Nat.leb 48 (nat_of_ascii c) && Nat.leb (nat_of_ascii c) 57.

Definition is_hex (c : ascii) : bool :=
  let n := nat_of_ascii c in
  is_digit c || (Nat.leb 65 n && Nat.leb n 70) || (Nat.leb 97 n && Nat.leb n 102).

Fixpoint skip_ws (l : list ascii) : list ascii :=
  match l with
  | c :: l' => if is_ws c then skip_ws l' else l
  | [] => []
  end.

Fixpoint digits (l : list ascii) : list ascii :=
  match l with
  | c :: l' => if is_digit c then digits l' else l
  | [] => []
  end.

Definition digits1 (l : list ascii) : option (list ascii) :=
  match l with
  | c :: l' => if is_digit c then Some (digits l') else None
  | [] => None
  end.

Definition p_int (l : list ascii) : option (list ascii) :=
  match l with
  | "0"%char :: l' => Some l'
  | _ => digits1 l
  end.

Definition p_frac (l : list ascii) : option (list ascii) :=
  match l with
  | "."%char :: l' => digits1 l'
  | _ => Some l
  end.

Definition p_exp (l : list ascii) : option (list ascii) :=
  match l with
  | c :: l' =>
      if ascii_eqb c "e" || ascii_eqb c "E" then
        match l' with
        | s :: l'' =>
            if ascii_eqb s "+" || ascii_eqb s "-" then digits1 l''
            else digits1 l'
        | [] => None
        end
      else Some l
  | [] => Some l
  end.

Definition p_number (l : list ascii) : option (list ascii) :=
  let l := match l with "-"%char :: l' => l' | _ => l end in
  match p_int l with
  | None => None
  | Some l => match p_frac l with None => None | Some l => p_exp l end
  end.

(** The body of a string literal, after its opening quote. *)
Fixpoint p_string (l : list ascii) : option (list ascii) :=
  match l with
  | [] => None
  | c :: l' =>
      if ascii_eqb c quote then Some l'
      else if ascii_eqb c backslash then
        match l' with
        | "u"%char :: a :: b :: d :: e :: l'' =>
            if is_hex a && is_hex b && is_hex d && is_hex e then p_string l''
            else None
        | e :: l'' =>
            if existsb (ascii_eqb e)
                 (quote :: backslash :: list_ascii_of_string "/bfnrt")
            then p_string l'' else None
        | [] => None
        end
      else if Nat.ltb (nat_of_ascii c) 32 then None
      else p_string l'
  end.

Fixpoint p_lit (w : list ascii) (l : list ascii) : option (list ascii) :=
  match w, l with
  | [], _ => Some l
  | a :: w', b :: l' => if ascii_dec a b then p_lit w' l' else None
  | _ :: _, [] => None
  end.

Fixpoint p_value (fuel : nat) (l : list ascii) : option (list ascii) :=
  match fuel with
  | 0 => None
  | S f =>
      match skip_ws l with
      | [] => None
      | c :: r =>
          if ascii_eqb c "{" then
            match skip_ws r with
            | "}"%char :: r' => Some r'
            | _ => p_members f r
            end
          else if ascii_eqb c "[" then
            match skip_ws r with
            | "]"%char :: r' => Some r'
            | _ => p_elems f r
            end
          else if ascii_eqb c quote then p_string r
          else if ascii_eqb c "t" then p_lit (list_ascii_of_string "true") (c :: r)
          else if ascii_eqb c "f" then p_lit (list_ascii_of_string "false") (c :: r)
          else if ascii_eqb c "n" then p_lit (list_ascii_of_string "null") (c :: r)
          else p_number (c :: r)
      end
  end
with p_members (fuel : nat) (l : list ascii) : option (list ascii) :=
  match fuel with
  | 0 => None
  | S f =>
      match skip_ws l with
      | c :: r =>
          if negb (ascii_eqb c quote) then None else
          match p_string r with
          | None => None
          | Some r =>
              match skip_ws r with
              | ":"%char :: r =>
                  match p_value f r with
                  | None => None
                  | Some r =>
                      match skip_ws r with
                      | ","%char :: r => p_members f r
                      | "}"%char :: r => Some r
                      | _ => None
                      end
                  end
              | _ => None
              end
          end
      | _ => None
      end
  end
with p_elems (fuel : nat) (l : list ascii) : option (list ascii) :=
  match fuel with
  | 0 => None
  | S f =>
      match p_value f l with
      | None => None
      | Some r =>
          match skip_ws r with
          | ","%char :: r => p_elems f r
          | "]"%char :: r => Some r
          | _ => None
          end
      end
  end.

Definition json_valid (s : string) : bool :=
  let l := list_ascii_of_string s in
  match p_value (2 * length l + 2) l with
  | Some r => match skip_ws r with [] => true | _ => false end
  | None => false
  end.

(** [json.loads] on a line, returning the text of the value it accepts. *)
Definition loads (s : string) : option string :=
  if json_valid s then Some s else None.

End JsonText.

(** The order of [sorted(..., key=lambda x: x[1], reverse=True)]. *)
Definition count_desc (a b : nat * Z) : Prop := (b.2 <= a.2)%Z.

#[global] Instance count_desc_dec : RelDecision count_desc.
Proof. intros a b. unfold count_desc. apply _. Defined.

(** Python's [sorted] with a key: a stable sort. Each element is inserted
    after every element it does not precede. *)
Fixpoint insert_by {A} (R : relation A) `{!RelDecision R} (x : A) (l : list A)
  : list A :=
  match l with
  | [] => [x]
  | y :: l' => if decide (R y x) then y :: insert_by R x l' else x :: l
  end.

Definition stable_sort {A} (R : relation A) `{!RelDecision R} (l : list A)
  : list A :=
  fold_left (fun acc x => insert_by R x acc) l [].

Section Analysis.

Context {Entry : Type} (dumps : Entry -> string).

(** ** Positions of a miner's entries in the evaluation set *)

(** The loop building [eval_set_to_idx] (and [eval_indices] in
    [find_golden_entries]): a fingerprint is mapped to the first position
    where it occurs. *)
Fixpoint build_index_go (i : nat) (l : list Entry) (d : list (string * nat))
  : list (string * nat) :=
  match l with
  | [] => d
  | e :: l' =>
      let s := dumps e in
      build_index_go (S i) l'
        (match lookup_str s d with Some _ => d | None => d ++ [(s, i)] end)
  end.

Definition build_eval_index (eval_data : list Entry) : list (string * nat) :=
  build_index_go 0 eval_data [].

(** [find_entry_positions(miner_data, eval_data)]: one position per miner
    entry found in the index, then [sorted]. *)
Definition find_entry_positions (miner_data eval_data : list Entry) : list nat :=
  let idx := build_eval_index eval_data in
  merge_sort (≤) (omap (fun e => lookup_str (dumps e) idx) miner_data).

(** ** Usage counts *)

(** The per-miner counting loop of [find_golden_entries]:
    [entry_counts[idx] = entry_counts.get(idx, 0) + 1] for every entry of
    the miner found in the evaluation set. *)
Definition golden_count_miner (eval_data : list Entry) (counts : list (nat * Z))
    (miner_data : list Entry) : list (nat * Z) :=
  let eval_indices := build_eval_index eval_data in
  fold_left (fun c e =>
      match lookup_str (dumps e) eval_indices with
      | Some idx => counter_incr idx c
      | None => c
      end) miner_data counts.

(** A top miner's dataset as seen by the scripts: [None] when
    [data/miner_{uid}/data.jsonl] does not exist, otherwise the loaded
    records. *)
Definition golden_counts (eval_data : list Entry)
    (miners : list (option (list Entry))) : list (nat * Z) :=
  fold_left (fun c m =>
      match m with
      | None => c
      | Some miner_data => golden_count_miner eval_data c miner_data
      end) miners [].

(** [total_miners]: the number of listed miners whose file exists. *)
Definition total_miners (miners : list (option (list Entry))) : Z :=
  Z.of_nat (length (filter is_Some miners)).

(** [find_golden_entries(eval_data, top_miner_uids, min_usage_pct)].
    [min_count = int(total_miners * min_usage_pct / 100)] truncates toward
    zero ([Z.quot]). The result keeps [(index, count)] (the float
    percentage of each tuple is only printed) and is sorted by decreasing
    count, stably, as [sorted(..., key=count, reverse=True)]. *)
Definition find_golden_entries (eval_data : list Entry)
    (miners : list (option (list Entry))) (min_usage_pct : Z) : list (nat * Z) :=
  let entry_counts := golden_counts eval_data miners in
  let min_count := Z.quot (total_miners miners * min_usage_pct) 100 in
  stable_sort count_desc
    (filter (fun p : nat * Z => (min_count <= p.2)%Z) entry_counts).

(** The top-level loop of analyze_top_miners.py:
    [for idx in find_entry_positions(...): entry_counts[idx] += 1]. *)
Definition analyze_entry_counts (eval_data : list Entry)
    (miners : list (option (list Entry))) : list (nat * Z) :=
  fold_left (fun c m =>
      match m with
      | None => c
      | Some miner_data =>
          fold_left (fun c' idx => counter_incr idx c')
            (find_entry_positions miner_data eval_data) c
      end) miners [].

(** ** Content hash *)

(** [get_dataset_hash(data)]: the md5 hex digest of the concatenation of the
    sorted fingerprints. [md5] is [hashlib.md5(...).hexdigest()] on the
    encoded text; nothing is assumed about it. Python orders [str] values by
    code points, which on this alphabet is [String.le]. *)
Definition get_dataset_hash (md5 : string -> string) (data : list Entry) : string :=
  md5 (String.concat EmptyString (merge_sort String.le (map dumps data))).

(** ** Overlap between two datasets *)

(** [set(json.dumps(item, sort_keys=True) for item in jsonl)] *)
Definition fp_set (l : list Entry) : list string := remove_dups (map dumps l).

(** [count_similar(jsonl1, jsonl2) = len(set1 & set2)] *)
Definition count_similar (l1 l2 : list Entry) : nat :=
  length (filter (fun s => s ∈ fp_set l2) (fp_set l1)).

(** The status string of [determine_status]. *)
Inductive status :=
| EMPTY | COMPLETE_DUPLICATE | MAJOR_DUPLICATE | HIGH_SIMILARITY
| SOME_OVERLAP | NO_OVERLAP.

Definition determine_status (similar_count total_miner : nat)
    (is_duplicate is_majority_duplicate : bool) : status :=
  if Nat.eqb total_miner 0 then EMPTY
  else if is_duplicate then COMPLETE_DUPLICATE
  else if is_majority_duplicate then MAJOR_DUPLICATE
  else if Nat.leb 50 similar_count then HIGH_SIMILARITY
  else if Nat.ltb 0 similar_count then SOME_OVERLAP
  else NO_OVERLAP.

(** The dict returned by [check_miner_vs_eval]; the float
    [match_percentage] and [is_suspicious] fields are left out. *)
Record check_result := {
  total_miner_entries : nat;
  similar_entries : nat;
  is_complete_duplicate : bool;
  is_majority_duplicate : bool;
  check_status : status
}.

(** [check_miner_vs_eval(miner_file, eval_data, duplicate_threshold)]. The
    argument [loaded] is the outcome of [load_jsonl(miner_file)]: [None]
    when it raised, which the [try] turns into the ERROR dict. *)
Definition check_miner_vs_eval (loaded : option (list Entry))
    (eval_data : list Entry) (duplicate_threshold : nat) : option check_result :=
  match loaded with
  | None => None
  | Some miner_data =>
      let similar_count := count_similar miner_data eval_data in
      let total_miner := length miner_data in
      let is_duplicate := Nat.eqb similar_count total_miner in
      let is_majority := Nat.leb duplicate_threshold similar_count in
      Some {| total_miner_entries := total_miner;
              similar_entries := similar_count;
              is_complete_duplicate := is_duplicate;
              is_majority_duplicate := is_majority;
              check_status :=
                determine_status similar_count total_miner is_duplicate is_majority |}
  end.

End Analysis.

(** ** Duplicate groups (compare_datasets.py) *)

Section Clustering.

(** Miner names, their datasets, the validator's [count_similar] (from
    [flockoff.validator.validator_utils]) and
    [constants.DEFAULT_DUPLICATE_COUNT]. The clustering loop works for any
    overlap function. *)
Context {Id D : Type} `{!EqDecision Id}.
Context (count_sim : D -> D -> nat) (threshold : nat).

(** One iteration of the inner loop [for miner_j in miner_datasets.keys()]. *)
Definition pool_step (processed : list Id) (i : Id) (di : D)
    (similar_miners : list Id) (p : Id * D) : list Id :=
  let '(j, dj) := p in
  if decide (i = j) then similar_miners
  else if decide (j ∈ processed) then similar_miners
  else if decide (threshold < count_sim di dj) then similar_miners ++ [j]
  else similar_miners.

(** [similar_miners] after the inner loop, starting from [[miner_i]]. *)
Definition pool (ds : list (Id * D)) (processed : list Id) (i : Id) (di : D)
  : list Id :=
  fold_left (pool_step processed i di) ds [i].

(** One iteration of the outer loop; the state is [(processed,
    duplicate_groups)]. *)
Definition cluster_step (ds : list (Id * D))
    (st : list Id * list (list Id)) (p : Id * D) : list Id * list (list Id) :=
  let '(processed, groups) := st in
  let '(i, di) := p in
  if decide (i ∈ processed) then st
  else
    let similar_miners := pool ds processed i di in
    if decide (1 < length similar_miners)
    then (processed ++ similar_miners, groups ++ [similar_miners])
    else (processed ++ [i], groups).

(** [miner_datasets] is a dict: its items in insertion order. *)
Definition cluster_run (ds : list (Id * D)) : list Id * list (list Id) :=
  fold_left (cluster_step ds) ds ([], []).

Definition duplicate_groups (ds : list (Id * D)) : list (list Id) :=
  (cluster_run ds).2.

End Clustering.

(** ** The golden-dataset builder (prepare_golden_dataset.py) *)

Section Golden.

Context {Entry : Type} (dumps : Entry -> string).

(** [random.shuffle(available_indices)]: some reordering of the list. *)
Context (shuffle : list nat -> list nat).

(** The local [max_reused_golden = 80]. *)
Definition max_reused_golden : Z := 80.

(** First pass: golden entries whose fingerprint is not in
    [used_entries_set]. Returns [selected_indices] (in the order of
    insertion, which is also the order of [selected_entries]) and
    [golden_unique]. *)
Fixpoint golden_unique_pass (eval_data : list Entry) (used : list string)
    (target_size : Z) (golden : list nat) (picked : list nat) (gu : Z)
  : list nat * Z :=
  match golden with
  | [] => (picked, gu)
  | idx :: g' =>
      if bool_decide (target_size <= Z.of_nat (length picked))%Z then (picked, gu)
      else match eval_data !! idx with
           | None => golden_unique_pass eval_data used target_size g' picked gu
           | Some e =>
               if bool_decide (dumps e ∉ used)
               then golden_unique_pass eval_data used target_size g'
                      (picked ++ [idx]) (gu + 1)
               else golden_unique_pass eval_data used target_size g' picked gu
           end
  end.

(** Second pass: golden entries that are reused, at most
    [max_reused_golden] of them. Returns [selected_indices] and
    [golden_reused]. *)
Fixpoint golden_reused_pass (eval_data : list Entry) (used : list string)
    (target_size : Z) (golden : list nat) (picked : list nat) (gr : Z)
  : list nat * Z :=
  match golden with
  | [] => (picked, gr)
  | idx :: g' =>
      if bool_decide (target_size <= Z.of_nat (length picked))%Z then (picked, gr)
      else if bool_decide (max_reused_golden <= gr)%Z then (picked, gr)
      else match eval_data !! idx with
           | Some e =>
               if bool_decide (idx ∉ picked) then
                 if bool_decide (dumps e ∈ used)
                 then golden_reused_pass eval_data used target_size g'
                        (picked ++ [idx]) (gr + 1)
                 else golden_reused_pass eval_data used target_size g' picked gr
               else golden_reused_pass eval_data used target_size g' picked gr
           | None => golden_reused_pass eval_data used target_size g' picked gr
           end
  end.

(** [available_indices]: positions [i] of [eval_data] not selected and,
    under [ensure_unique], not used by an existing miner. *)
Fixpoint fill_available_go (ensure_unique : bool) (used : list string)
    (picked : list nat) (i : nat) (l : list Entry) : list nat :=
  match l with
  | [] => []
  | e :: l' =>
      if bool_decide (i ∈ picked) then fill_available_go ensure_unique used picked (S i) l'
      else if ensure_unique && bool_decide (dumps e ∈ used)
      then fill_available_go ensure_unique used picked (S i) l'
      else i :: fill_available_go ensure_unique used picked (S i) l'
  end.

Definition fill_available (eval_data : list Entry) (ensure_unique : bool)
    (used : list string) (picked : list nat) : list nat :=
  fill_available_go ensure_unique used picked 0 eval_data.

(** The observable outcome of one run. [run_written] is what is written to
    [output_path]; [run_shortfall] is [Some (available, remaining)] when the
    warning [Only ... unique entries available, requested ...] is printed;
    [run_returns] is false when the final summary raises
    [ZeroDivisionError] (after the file has been written). *)
Record golden_run := {
  run_written : list Entry;
  run_picked : list nat;
  run_golden_unique : Z;
  run_golden_reused : Z;
  run_shortfall : option (nat * Z);
  run_returns : bool
}.

(** [used_entries_set]: the fingerprints of every existing miner dataset
    under [data_dir], collected only when [ensure_unique]. *)
Definition used_entries (ensure_unique : bool) (existing : list (list Entry))
  : list string :=
  if ensure_unique then concat (map (map dumps) existing) else [].

(** The fill phase, from [remaining = target_size - len(selected_entries)]. *)
Definition fill_phase (eval_data : list Entry) (ensure_unique : bool)
    (used : list string) (target_size : Z) (picked : list nat)
  : list nat * option (nat * Z) :=
  let remaining := (target_size - Z.of_nat (length picked))%Z in
  if bool_decide (0 < remaining)%Z then
    let avail := fill_available eval_data ensure_unique used picked in
    let short := bool_decide (Z.of_nat (length avail) < remaining)%Z in
    let remaining' := if short then Z.of_nat (length avail) else remaining in
    (picked ++ take (Z.to_nat remaining') (shuffle avail),
     if short then Some (length avail, remaining) else None)
  else (picked, None).

(** The two golden passes of [prepare_golden_dataset]: the golden indices,
    [used_entries_set], then [selected_indices] with [golden_unique] and
    [golden_reused]. *)
Definition golden_phases (eval_data : list Entry)
    (top_miners : list (option (list Entry))) (existing : list (list Entry))
    (target_size min_golden_usage_pct : Z) (ensure_unique : bool)
  : list nat * Z * Z :=
  let golden_indices :=
    map fst (find_golden_entries dumps eval_data top_miners min_golden_usage_pct) in
  let used := used_entries ensure_unique existing in
  let '(p1, gu) := golden_unique_pass eval_data used target_size golden_indices [] 0 in
  let '(p2, gr) := golden_reused_pass eval_data used target_size golden_indices p1 0 in
  (p2, gu, gr).

(** [prepare_golden_dataset(...)] once [eval_data] is loaded: [top_miners]
    are the datasets of [top_miner_uids] as [find_golden_entries] reads
    them, [existing] the datasets of every miner directory of [data_dir]. *)
Definition prepare_golden_dataset (eval_data : list Entry)
    (top_miners : list (option (list Entry))) (existing : list (list Entry))
    (target_size min_golden_usage_pct : Z) (ensure_unique : bool) : golden_run :=
  let golden_indices :=
    map fst (find_golden_entries dumps eval_data top_miners min_golden_usage_pct) in
  let used := used_entries ensure_unique existing in
  let '(p2, gu, gr) := golden_phases eval_data top_miners existing target_size
                         min_golden_usage_pct ensure_unique in
  let '(p3, short) := fill_phase eval_data ensure_unique used target_size p2 in
  {| run_written := omap (fun idx => eval_data !! idx) p3;
     run_picked := p3;
     run_golden_unique := gu;
     run_golden_reused := gr;
     run_shortfall := short;
     run_returns := negb (bool_decide (golden_indices = [])) |}.

(** For stating the cap: the selected positions that are golden and whose
    fingerprint occurs in some existing miner dataset. *)
Definition reused_golden_count (eval_data : list Entry)
    (top_miners : list (option (list Entry))) (existing : list (list Entry))
    (min_golden_usage_pct : Z) (picked : list nat) : nat :=
  let golden_indices :=
    map fst (find_golden_entries dumps eval_data top_miners min_golden_usage_pct) in
  let all_used := concat (map (map dumps) existing) in
  length (filter (fun idx : nat =>
     bool_decide (idx ∈ golden_indices) &&
     match eval_data !! idx with
     | Some e => bool_decide (dumps e ∈ all_used)
     | None => false
     end = true) picked).

End Golden.

(** ** The unique-dataset builder (prepare_unique_dataset.py) *)

Section Unique.

Context {Entry : Type} `{!EqDecision Entry} (dumps : Entry -> string).

(** [random.sample(population, k)]: some [k] elements of the population. *)
Context (sample : list Entry -> nat -> list Entry).

(** [max(count_similar(test_set, miner_data) for each miner)], from 0. *)
Definition max_overlap (test_set : list Entry) (miners : list (list Entry)) : nat :=
  fold_left (fun m md => Nat.max m (count_similar dumps test_set md)) miners 0.

(** The fallback loop over [remaining_candidates[:remaining_needed * 10]]. *)
Fixpoint fallback_loop (miners : list (list Entry)) (num_needed thr : nat)
    (cands : list Entry) (selected : list Entry) : list Entry :=
  match cands with
  | [] => selected
  | c :: cs =>
      if Nat.leb (max_overlap (selected ++ [c]) miners) thr then
        if Nat.leb num_needed (length (selected ++ [c])) then selected ++ [c]
        else fallback_loop miners num_needed thr cs (selected ++ [c])
      else fallback_loop miners num_needed thr cs selected
  end.

(** [find_unique_entries(eval_data, miner_datasets, num_needed,
    duplicate_threshold)]. *)
Definition find_unique_entries (eval_data : list Entry)
    (miners : list (list Entry)) (num_needed thr : nat) : list Entry :=
  let all_used := concat (map (fp_set dumps) miners) in
  let completely_unused := filter (fun e => dumps e ∉ all_used) eval_data in
  if Nat.leb num_needed (length completely_unused)
  then sample completely_unused num_needed
  else
    let remaining_needed := num_needed - length completely_unused in
    let remaining_candidates := filter (fun e => e ∉ completely_unused) eval_data in
    fallback_loop miners num_needed thr
      (take (remaining_needed * 10) remaining_candidates) completely_unused.

Definition by_dumps (a b : Entry) : Prop := String.le (dumps a) (dumps b).

#[local] Instance by_dumps_dec : RelDecision by_dumps.
Proof. intros a b. unfold by_dumps. apply _. Defined.

(** [main()] after loading: the entries written to [output_file], or
    [None] when it stops with [ERROR: Cannot create unique dataset] and
    writes nothing. The duplicate threshold is the default 100. *)
Definition prepare_unique_main (eval_data : list Entry)
    (miners : list (list Entry)) (num_entries : nat) : option (list Entry) :=
  let unique_entries := find_unique_entries eval_data miners num_entries 100 in
  if Nat.ltb (length unique_entries) num_entries then None
  else Some (stable_sort by_dumps unique_entries).

End Unique.

#[global] Instance by_dumps_rel_dec {E : Type} (d : E -> string) :
  RelDecision (by_dumps d).
Proof. intros a b. unfold by_dumps. apply _. Defined.

(** ** The report of check_datasets.py *)

Section Report.

Context {Entry : Type} (dumps : Entry -> string).

(** The loop of [check_all_datasets] over the sorted miner directories. A
    directory is [None] when it has no data.jsonl (SKIPPED, not added to
    [results]) and [Some loaded] otherwise, [loaded] being the outcome of
    [load_jsonl] ([None] when it raised). A result [None] is the ERROR
    dict, which has no other key than [error] and [status]. The default
    [duplicate_threshold=100] is used. *)
Fixpoint check_all_results (eval_data : list Entry)
    (miners : list (option (option (list Entry)))) : list (option check_result) :=
  match miners with
  | [] => []
  | None :: ms => check_all_results eval_data ms
  | Some loaded :: ms =>
      check_miner_vs_eval dumps loaded eval_data 100 :: check_all_results eval_data ms
  end.

(** [r.get('is_complete_duplicate')] *)
Definition r_complete (r : option check_result) : bool :=
  match r with Some c => is_complete_duplicate c | None => false end.

(** [r.get('is_majority_duplicate')] *)
Definition r_majority (r : option check_result) : bool :=
  match r with Some c => is_majority_duplicate c | None => false end.

(** [r.get('similar_entries', 0) == 0] *)
Definition r_no_overlap (r : option check_result) : bool :=
  match r with Some c => Nat.eqb (similar_entries c) 0 | None => true end.

(** [complete_duplicates], [majority_duplicates] and [no_overlap] of the
    summary. *)
Definition complete_duplicates (results : list (option check_result)) : nat :=
  length (filter (fun r => r_complete r = true) results).

Definition majority_duplicates (results : list (option check_result)) : nat :=
  length (filter (fun r => r_majority r = true) results).

Definition no_overlap (results : list (option check_result)) : nat :=
  length (filter (fun r => r_no_overlap r = true) results).

(** The number of records of a miner dataset that [eval_indices] maps to
    position [idx]. *)
Definition uses_of (eval_data : list Entry) (idx : nat) (m : option (list Entry)) : nat :=
  match m with
  | None => 0
  | Some miner_data =>
      length (filter (fun e => lookup_str (dumps e) (build_eval_index dumps eval_data)
                               = Some idx) miner_data)
  end.

End Report.

(** ** Check 1 of compare_datasets.py *)

(** [eval_violations]: the miners for which
    [count_similar(eval_data, miner_data) != len(miner_data)], in the order
    of [miner_datasets]. The validator's [count_similar] is taken to be the
    one copied into check_datasets.py. *)
Definition eval_violations {Id Entry : Type} (dumps : Entry -> string)
    (eval_data : list Entry) (ds : list (Id * list Entry)) : list Id :=
  (filter (fun p : Id * list Entry =>
     count_similar dumps eval_data p.2 <> length p.2) ds).*1.

(** [dup_miners = sum(len(g) - 1 for g in duplicate_groups)] *)
Definition dup_miners {Id : Type} (groups : list (list Id)) : nat :=
  sum_list_with (fun g => length g - 1) groups.

(** ** sort_all_datasets.py *)

Section SortFile.

Context {J : Type} (json_loads : string -> option J) (dumps : J -> string).

(** [json.dumps(item, ensure_ascii=False)], the text written back. *)
Context (write : J -> string).

Definition newline : string := String (ascii_of_nat 10) EmptyString.

(** [sort_dataset_file(file_path)] on the lines [readlines] returns: [None]
    when it returns False without writing (empty file, or a non-blank line
    [json.loads] rejects), otherwise the lines written back, sorted by
    [json.dumps(x, sort_keys=True)]. *)
Definition sort_dataset_file (lines : list string) : option (list string) :=
  match lines with
  | [] => None
  | _ :: _ =>
      match load_strict_lines json_loads lines with
      | None => None
      | Some data =>
          Some (map (fun x => write x +:+ newline) (stable_sort (by_dumps dumps) data))
      end
  end.

(** The content of the file after [sort_dataset_file]. *)
Definition sorted_file_content (lines : list string) : list string :=
  match sort_dataset_file lines with Some out => out | None => lines end.

End SortFile.

(** Concrete records for examples: JSON numbers, whose [json.dumps] is their
    decimal text. *)
Definition num_dumps (n : nat) : string :=
  NilZero.string_of_uint (Nat.to_uint n).

(** The whitespace [json.loads] skips around a JSON text: space, tab, line
    feed and carriage return only (not, e.g., a form feed, for which
    [str.isspace] holds). *)
Definition is_json_space (c : ascii) : bool :=
  let n := nat_of_ascii c in
  Nat.eqb n 32 || Nat.eqb n 9 || Nat.eqb n 10 || Nat.eqb n 13.

Fixpoint drop_json_space (l : list ascii) : list ascii :=
  match l with
  | c :: l' => if is_json_space c then drop_json_space l' else l
  | [] => []
  end.

Definition json_strip (s : string) : string :=
  string_of_list_ascii
    (rev (drop_json_space (rev (drop_json_space (list_ascii_of_string s))))).

(** JSON booleans: [json.dumps] and, on one line, [json.loads], which
    accepts surrounding JSON whitespace. *)
Definition bool_dumps (b : bool) : string := if b then "true" else "false".

Definition bool_loads (s : string) : option bool :=
  let t := json_strip s in
  if String.eqb t "true" then Some true
  else if String.eqb t "false" then Some false
  else None.

Example positions_ex :
  find_entry_positions num_dumps [7; 2; 2; 9] [1; 2; 3; 7; 2] = [1; 1; 3].
Proof. reflexivity. Qed.

Example golden_ex :
  find_golden_entries num_dumps [10; 11; 12]
    [Some [10; 11]; None; Some [11]; Some [12; 11; 11]] 50
  = [(1, 4%Z); (0, 1%Z); (2, 1%Z)].
Proof. reflexivity. Qed.

Definition q : string := String JsonText.quote EmptyString.
Definition bs : string := String JsonText.backslash EmptyString.

Example json_ex :
  map JsonText.json_valid
    ["[1, 2.5e3, true, null, {}, -0.5E+2]"; "{"; "[1,]"; " 7 "; "01";
     ("{" ++ q ++ "a" ++ q ++ ": [" ++ q ++ "x" ++ bs ++ "u00e9" ++ q ++ "]}")%string;
     ("{" ++ q ++ "a" ++ q ++ " 1}")%string]
  = [true; false; false; true; false; true; false].
Proof. reflexivity. Qed.

Example golden_run_ex :
  let r := prepare_golden_dataset num_dumps id [0; 1; 2; 3; 4; 5; 6; 7]
             [Some [1; 2]; Some [1; 3]; Some [1; 2; 9]] [[1; 2]; [4]] 5 50 true in
  (run_picked r, run_golden_unique r, run_golden_reused r, run_shortfall r,
   run_returns r)
  = ([3; 1; 2; 0; 5], 1%Z, 2%Z, None, true).
Proof. vm_compute. reflexivity. Qed.

(** * Loading *)

Section LoadingProps.

Context {J : Type} (json_loads : string -> option J).

Lemma load_strict_lines_none (lines : list string) :
  load_strict_lines json_loads lines = None <->
  exists l, l ∈ lines /\ strip l <> EmptyString /\ json_loads (strip l) = None.
Proof.
  induction lines as [|l ls IH]; simpl.
  - split; [discriminate|]. intros (x & Hx & _). by apply elem_of_nil in Hx.
  - destruct (String.eqb (strip l) EmptyString) eqn:Hb.
    + apply String.eqb_eq in Hb. rewrite IH. split.
      * intros (x & Hx & Hs & Hj). exists x. split; [by apply list_elem_of_further|done].
      * intros (x & Hx & Hs & Hj). apply elem_of_cons in Hx as [->|Hx]; [done|].
        eauto.
    + apply String.eqb_neq in Hb.
      destruct (json_loads (strip l)) as [v|] eqn:Hj.
      * destruct (load_strict_lines json_loads ls) eqn:Hr.
        -- split; [discriminate|]. intros (x & Hx & Hs & Hx').
           apply elem_of_cons in Hx as [->|Hx]; [congruence|].
           destruct IH as [_ IH']. discriminate (IH' ltac:(eauto)).
        -- split; [intros _|done]. destruct IH as [IH _].
           destruct (IH eq_refl) as (x & Hx & Hs & Hx').
           exists x. split; [by apply list_elem_of_further|done].
      * split; [intros _|done]. exists l. split; [apply list_elem_of_here|done].
Qed.

(** C4 (as amended): the loaders of analyze_top_miners.py and
    prepare_golden_dataset.py drop a line that does not parse and keep the
    parsed records in order, never failing; the loader of
    check_datasets.py (the validator's) fails exactly when some non-blank
    line does not parse. *)
Theorem load_jsonl_policies :
  (forall l1 bad l2, json_loads bad = None ->
   load_jsonl_lenient json_loads (l1 ++ bad :: l2) =
   load_jsonl_lenient json_loads l1 ++ load_jsonl_lenient json_loads l2) /\
  (forall l1 good v l2, json_loads good = Some v ->
   load_jsonl_lenient json_loads (l1 ++ good :: l2) =
   load_jsonl_lenient json_loads l1 ++ v :: load_jsonl_lenient json_loads l2) /\
  (forall max_rows lines,
   load_jsonl_strict json_loads max_rows lines = None <->
   exists l, l ∈ lines /\ strip l <> EmptyString /\ json_loads (strip l) = None).
Proof.
  unfold load_jsonl_lenient. split; [|split].
  - intros l1 bad l2 Hb. rewrite omap_app. simpl. by rewrite Hb.
  - intros l1 good v l2 Hg. rewrite omap_app. simpl. by rewrite Hg.
  - intros max_rows lines. rewrite <- load_strict_lines_none.
    unfold load_jsonl_strict. destruct (load_strict_lines json_loads lines); done.
Qed.

End LoadingProps.

(** * Duplicate groups *)

Section ClusteringProps.

Context {Id D : Type} `{!EqDecision Id}.
Context (count_sim : D -> D -> nat) (threshold : nat).

(** The miners the inner loop appends to [similar_miners]. *)
Definition pooled (ds : list (Id * D)) (processed : list Id) (i : Id) (di : D)
  : list (Id * D) :=
  filter (fun p : Id * D => p.1 <> i /\ (p.1 ∉ processed) /\
                           threshold < count_sim di p.2) ds.

Lemma pool_eq (ds : list (Id * D)) processed i di :
  pool count_sim threshold ds processed i di = i :: (pooled ds processed i di).*1.
Proof.
  unfold pool.
  assert (Hgen : forall acc,
    fold_left (pool_step count_sim threshold processed i di) ds acc =
    acc ++ (pooled ds processed i di).*1).
  { induction ds as [|[j dj] ds IH]; intros acc; simpl; [by rewrite app_nil_r|].
    rewrite IH. unfold pooled. rewrite filter_cons. unfold pool_step. simpl.
    destruct (decide (i = j)) as [->|Hij].
    { rewrite decide_False by naive_solver. done. }
    destruct (decide (j ∈ processed)).
    { rewrite decide_False by naive_solver. done. }
    destruct (decide (threshold < count_sim di dj)).
    - rewrite decide_True by naive_solver. simpl. by rewrite <- app_assoc.
    - rewrite decide_False by naive_solver. done. }
  apply Hgen.
Qed.

Lemma pool_elem (ds : list (Id * D)) processed i di j :
  j ∈ pool count_sim threshold ds processed i di <->
  j = i \/ (j <> i /\ (j ∉ processed) /\
            exists dj, (j, dj) ∈ ds /\ threshold < count_sim di dj).
Proof.
  rewrite pool_eq, elem_of_cons, list_elem_of_fmap. unfold pooled.
  split.
  - intros [->|([j' dj] & -> & Hp)]; [by left|right].
    apply list_elem_of_filter in Hp as ((? & ? & ?) & ?). simpl in *. eauto.
  - intros [->|(? & ? & dj & ? & ?)]; [by left|right].
    exists (j, dj). split; [done|]. apply list_elem_of_filter. simpl. eauto.
Qed.

Lemma pool_NoDup (ds : list (Id * D)) processed i di :
  NoDup ds.*1 -> NoDup (pool count_sim threshold ds processed i di).
Proof.
  intros Hnd. rewrite pool_eq. unfold pooled. constructor.
  - rewrite list_elem_of_fmap. intros ([j dj] & -> & Hp).
    apply list_elem_of_filter in Hp as ((? & _) & _). done.
  - eapply sublist_NoDup; [exact Hnd|]. apply fmap_sublist, sublist_filter.
Qed.

(** What holds after the outer loop has gone through a prefix [l] of the
    miners. *)
Definition groups_inv (ds l : list (Id * D)) (st : list Id * list (list Id)) : Prop :=
  NoDup (concat st.2) /\
  (forall x, x ∈ concat st.2 -> x ∈ st.1) /\
  (forall g, g ∈ st.2 -> exists pre i di post,
     l = pre ++ (i, di) :: post /\
     (i ∉ (fold_left (cluster_step count_sim threshold ds) pre ([], [])).1) /\
     g = pool count_sim threshold ds
           (fold_left (cluster_step count_sim threshold ds) pre ([], [])).1 i di).

Lemma groups_inv_prefix (ds : list (Id * D)) :
  NoDup ds.*1 ->
  forall l, groups_inv ds l (fold_left (cluster_step count_sim threshold ds) l ([], [])).
Proof.
  intros Hnd l. induction l as [|[i di] l IH] using rev_ind.
  - split; [constructor|]. split; [intros x Hx; by apply elem_of_nil in Hx|].
    intros g Hg. by apply elem_of_nil in Hg.
  - rewrite fold_left_app. simpl.
    destruct (fold_left (cluster_step count_sim threshold ds) l ([], []))
      as [processed groups] eqn:Hst.
    destruct IH as (Hnd' & Hsub & Hgr). simpl in Hnd', Hsub, Hgr.
    unfold cluster_step, groups_inv. simpl.
    destruct (decide (i ∈ processed)) as [Hin|Hnin].
    + split; [done|]. split; [done|].
      intros g Hg. destruct (Hgr g Hg) as (pre & i' & di' & post & -> & ?).
      exists pre, i', di', (post ++ [(i, di)]). split; [by rewrite <- app_assoc|done].
    + destruct (decide (1 < length (pool count_sim threshold ds processed i di))).
      * unfold groups_inv. simpl. rewrite concat_app. simpl. rewrite app_nil_r.
        split; [|split].
        -- apply NoDup_app. split; [done|]. split; [|by apply pool_NoDup].
           intros x Hx Hx'. apply pool_elem in Hx' as [->|(_ & Hxp & _)].
           ++ apply Hnin, Hsub, Hx.
           ++ apply Hxp, Hsub, Hx.
        -- intros x Hx. apply elem_of_app in Hx as [Hx|Hx];
             apply elem_of_app; [left; by apply Hsub|by right].
        -- intros g Hg. apply elem_of_app in Hg as [Hg|Hg].
           ++ destruct (Hgr g Hg) as (pre & i' & di' & post & -> & ?).
              exists pre, i', di', (post ++ [(i, di)]).
              split; [by rewrite <- app_assoc|done].
           ++ apply list_elem_of_singleton in Hg as ->.
              exists l, i, di, []. rewrite Hst. done.
      * simpl. split; [done|]. split.
        -- intros x Hx. apply elem_of_app. left. by apply Hsub.
        -- intros g Hg. destruct (Hgr g Hg) as (pre & i' & di' & post & -> & ?).
           exists pre, i', di', (post ++ [(i, di)]). split; [by rewrite <- app_assoc|done].
Qed.

Lemma cluster_groups_grow (ds l : list (Id * D)) :
  forall st, exists gs',
  (fold_left (cluster_step count_sim threshold ds) l st).2 = st.2 ++ gs'.
Proof.
  induction l as [|[i di] l IH]; intros [processed groups]; cbn [fold_left].
  - exists []. by rewrite app_nil_r.
  - destruct (IH (cluster_step count_sim threshold ds (processed, groups) (i, di)))
      as [gs' ->].
    unfold cluster_step. case_decide; [by exists gs'|].
    case_decide; simpl; [|by exists gs'].
    exists ([pool count_sim threshold ds processed i di] ++ gs'). by rewrite app_assoc.
Qed.

Lemma cluster_groups_long_gen (ds l : list (Id * D)) :
  forall st, (forall g, g ∈ st.2 -> 1 < length g) ->
  forall g, g ∈ (fold_left (cluster_step count_sim threshold ds) l st).2 ->
  1 < length g.
Proof.
  induction l as [|[i di] l IH]; intros [processed groups] Hst; cbn [fold_left];
    [exact Hst|].
  apply IH. unfold cluster_step.
  case_decide; [exact Hst|]. case_decide as Hlen; simpl; [|exact Hst].
  intros g Hg. apply elem_of_app in Hg as [Hg|Hg]; [by apply Hst|].
  apply list_elem_of_singleton in Hg as ->. exact Hlen.
Qed.

(** C7: the outer loop takes the miners in dict order; the group formed
    from an unprocessed seed [i] holds [i] and exactly the other miners,
    unprocessed at that moment, whose overlap with [i] is strictly greater
    than the threshold; every group has at least two members, every pooled
    miner is marked processed and the groups are pairwise disjoint.
    Conversely, every seed still unprocessed at its turn that has such a
    partner gives a group, with exactly those members. *)
Theorem duplicate_groups_spec (ds : list (Id * D)) :
  NoDup ds.*1 ->
  NoDup (concat (duplicate_groups count_sim threshold ds)) /\
  (forall x, x ∈ concat (duplicate_groups count_sim threshold ds) ->
   x ∈ (cluster_run count_sim threshold ds).1) /\
  (forall g, g ∈ duplicate_groups count_sim threshold ds ->
   exists pre i di post,
     ds = pre ++ (i, di) :: post /\
     let processed := (fold_left (cluster_step count_sim threshold ds) pre ([], [])).1 in
     (i ∉ processed) /\
     forall j, j ∈ g <->
       j = i \/ (j <> i /\ (j ∉ processed) /\
                 exists dj, (j, dj) ∈ ds /\ threshold < count_sim di dj)) /\
  (forall g, g ∈ duplicate_groups count_sim threshold ds -> 2 <= length g) /\
  (forall pre i di post,
   ds = pre ++ (i, di) :: post ->
   let processed := (fold_left (cluster_step count_sim threshold ds) pre ([], [])).1 in
   (i ∉ processed) ->
   (exists j dj, j <> i /\ (j ∉ processed) /\ (j, dj) ∈ ds /\
                 threshold < count_sim di dj) ->
   exists g, g ∈ duplicate_groups count_sim threshold ds /\
     forall j, j ∈ g <->
       j = i \/ (j <> i /\ (j ∉ processed) /\
                 exists dj, (j, dj) ∈ ds /\ threshold < count_sim di dj)).
Proof.
  intros Hnd.
  destruct (groups_inv_prefix ds Hnd ds) as (H1 & H2 & H3).
  split; [exact H1|]. split; [exact H2|]. split.
  { intros g Hg. destruct (H3 g Hg) as (pre & i & di & post & Hds & Hi & ->).
    exists pre, i, di, post. split; [done|]. split; [done|].
    intros j. apply pool_elem. }
  split.
  { intros g Hg. unfold duplicate_groups, cluster_run in Hg.
    apply (cluster_groups_long_gen ds ds ([], [])) in Hg; [lia|].
    intros g' Hg'. by apply elem_of_nil in Hg'. }
  intros pre i di post Hds processed Hi (j & dj & Hji & Hjp & Hdj & Hth).
  exists (pool count_sim threshold ds processed i di). split.
  - unfold duplicate_groups, cluster_run.
    pose proof (fold_left_app (cluster_step count_sim threshold ds) pre ((i, di) :: post)
                  ([], [])) as Happ.
    rewrite <- Hds in Happ. rewrite Happ. simpl.
    destruct (cluster_groups_grow ds post
      (cluster_step count_sim threshold ds
         (fold_left (cluster_step count_sim threshold ds) pre ([], [])) (i, di)))
      as [gs' ->].
    fold processed.
    destruct (fold_left (cluster_step count_sim threshold ds) pre ([], []))
      as [pr groups] eqn:Epre.
    simpl in processed. subst processed.
    unfold cluster_step. rewrite decide_False by exact Hi.
    rewrite decide_True.
    + simpl. apply elem_of_app. left. apply elem_of_app. right. left.
    + rewrite pool_eq. simpl.
      assert (Hin : j ∈ (pooled ds pr i di).*1).
      { apply list_elem_of_fmap. exists (j, dj). split; [done|].
        apply list_elem_of_filter. simpl. done. }
      destruct ((pooled ds pr i di).*1); [by apply elem_of_nil in Hin|]. simpl. lia.
  - intros j'. apply pool_elem.
Qed.

End ClusteringProps.

(** * Properties *)

Section Properties.

Context {Entry : Type} (dumps : Entry -> string).

(** ** Index of the evaluation set *)

Lemma lookup_str_snoc k d s i :
  lookup_str k (d ++ [(s, i)]) =
  match lookup_str k d with
  | Some v => Some v
  | None => if String.eqb k s then Some i else None
  end.
Proof.
  induction d as [|[k' v] d IH]; simpl; [done|].
  destruct (String.eqb k k'); [done|apply IH].
Qed.

Lemma build_index_go_sound (full : list Entry) l :
  forall i d,
  (forall k, full !! (i + k) = l !! k) ->
  (forall s j, lookup_str s d = Some j -> exists e, full !! j = Some e /\ dumps e = s) ->
  forall s j, lookup_str s (build_index_go dumps i l d) = Some j ->
  exists e, full !! j = Some e /\ dumps e = s.
Proof.
  induction l as [|e l IH]; intros i d Hfull Hd; simpl; [exact Hd|].
  apply IH.
  - intros k. specialize (Hfull (S k)). rewrite Nat.add_succ_r in Hfull. exact Hfull.
  - destruct (lookup_str (dumps e) d) eqn:Hl; [exact Hd|].
    intros s j. rewrite lookup_str_snoc.
    destruct (lookup_str s d) eqn:Hs; [intros [= <-]; eauto|].
    destruct (String.eqb s (dumps e)) eqn:He; [|discriminate].
    intros [= <-]. apply String.eqb_eq in He. subst s.
    exists e. split; [|done]. rewrite <- (Nat.add_0_r i). apply (Hfull 0).
Qed.

Lemma build_eval_index_sound (eval_data : list Entry) s j :
  lookup_str s (build_eval_index dumps eval_data) = Some j ->
  exists e, eval_data !! j = Some e /\ dumps e = s.
Proof.
  apply build_index_go_sound; [intros k; done|done].
Qed.

Lemma positions_raw_NoDup (miner_data eval_data : list Entry) :
  NoDup (map dumps miner_data) ->
  NoDup (omap (fun e => lookup_str (dumps e) (build_eval_index dumps eval_data))
           miner_data).
Proof.
  induction miner_data as [|e m IH]; simpl; intros Hnd; [constructor|].
  apply NoDup_cons in Hnd as [Hnotin Hnd].
  destruct (lookup_str (dumps e) _) as [j|] eqn:Hj; [|by apply IH].
  constructor; [|by apply IH].
  intros Hin. apply list_elem_of_omap in Hin as (e' & He' & Hj').
  apply build_eval_index_sound in Hj as (x & Hx & Hxe).
  apply build_eval_index_sound in Hj' as (x' & Hx' & Hxe').
  rewrite Hx in Hx'. injection Hx' as <-.
  apply Hnotin. rewrite <- Hxe, Hxe'.
  apply list_elem_of_In, in_map, list_elem_of_In, He'.
Qed.

(** ** Content hash *)

(** C8: the content hash does not depend on the order of the records. *)
Theorem get_dataset_hash_permutation (md5 : string -> string) (data data' : list Entry) :
  data ≡ₚ data' ->
  get_dataset_hash dumps md5 data = get_dataset_hash dumps md5 data'.
Proof.
  intros Hp. unfold get_dataset_hash. do 2 f_equal.
  apply (Sorted_unique String.le);
    [apply Sorted_merge_sort; apply _..|].
  rewrite !merge_sort_Permutation. by rewrite Hp.
Qed.

(** ** Positions of a dataset in the evaluation set *)

(** C3 (as amended): [find_entry_positions] is sorted and lists one
    position per miner entry whose fingerprint is in the index (an entry
    that occurs twice gives its position twice); each position holds a
    record with the fingerprint of one of the miner's entries; the list is
    duplicate-free when the miner's fingerprints are pairwise distinct. *)
Theorem find_entry_positions_spec (miner_data eval_data : list Entry) :
  Sorted (≤) (find_entry_positions dumps miner_data eval_data) /\
  find_entry_positions dumps miner_data eval_data
    ≡ₚ omap (fun e => lookup_str (dumps e) (build_eval_index dumps eval_data))
         miner_data /\
  (forall j, j ∈ find_entry_positions dumps miner_data eval_data ->
   exists e, eval_data !! j = Some e /\ dumps e ∈ map dumps miner_data) /\
  (NoDup (map dumps miner_data) ->
   NoDup (find_entry_positions dumps miner_data eval_data)).
Proof.
  unfold find_entry_positions.
  split; [apply Sorted_merge_sort; apply _|].
  split; [apply merge_sort_Permutation|].
  split.
  - intros j Hj. rewrite merge_sort_Permutation in Hj.
    apply list_elem_of_omap in Hj as (e & He & Hl).
    apply build_eval_index_sound in Hl as (x & Hx & Hxe).
    exists x. split; [done|]. rewrite Hxe.
    apply list_elem_of_In, in_map, list_elem_of_In, He.
  - intros Hnd. rewrite merge_sort_Permutation. by apply positions_raw_NoDup.
Qed.

(** ** Complete duplicates *)

Lemma remove_dups_length_lt (l : list string) :
  ~ NoDup l -> length (remove_dups l) < length l.
Proof.
  intros Hnd.
  assert (Hsub : remove_dups l ⊆+ l).
  { apply NoDup_submseteq; [apply NoDup_remove_dups|].
    intros x. apply elem_of_remove_dups. }
  pose proof (submseteq_length _ _ Hsub) as Hle.
  destruct (decide (length (remove_dups l) = length l)) as [Heq|]; [|lia].
  exfalso. apply Hnd.
  rewrite <- (submseteq_length_Permutation _ _ Hsub); [apply NoDup_remove_dups|lia].
Qed.

(** C9: a miner dataset is flagged as a complete duplicate exactly when the
    overlap of the fingerprint sets equals the number of its records; so a
    dataset with two records of the same fingerprint is never flagged. *)
Theorem check_miner_vs_eval_complete (miner_data eval_data : list Entry)
    (duplicate_threshold : nat) :
  exists r,
    check_miner_vs_eval dumps (Some miner_data) eval_data duplicate_threshold = Some r /\
    (is_complete_duplicate r = true <->
     count_similar dumps miner_data eval_data = length miner_data) /\
    (~ NoDup (map dumps miner_data) -> is_complete_duplicate r = false).
Proof.
  eexists. split; [reflexivity|]. simpl. split; [apply Nat.eqb_eq|].
  intros Hnd. apply Nat.eqb_neq.
  unfold count_similar, fp_set.
  pose proof (remove_dups_length_lt _ Hnd) as Hlt. rewrite length_map in Hlt.
  pose proof (length_filter (fun s => s ∈ remove_dups (map dumps eval_data))
                (remove_dups (map dumps miner_data))).
  lia.
Qed.

(** ** Golden entries *)

Lemma insert_by_perm {A} (R : relation A) `{!RelDecision R} x l :
  insert_by R x l ≡ₚ x :: l.
Proof.
  induction l as [|y l IH]; simpl; [done|].
  case_decide; [|done].
  rewrite IH. apply perm_swap.
Qed.

Lemma stable_sort_perm {A} (R : relation A) `{!RelDecision R} l :
  stable_sort R l ≡ₚ l.
Proof.
  unfold stable_sort.
  assert (Hgen : forall acc, fold_left (fun acc x => insert_by R x acc) l acc ≡ₚ l ++ acc).
  { induction l as [|x l IH]; intros acc; simpl; [done|].
    rewrite IH, insert_by_perm. symmetry. apply Permutation_middle. }
  rewrite Hgen. by rewrite app_nil_r.
Qed.

(** A position is golden, with its count, exactly when it has been counted
    and its count reaches [int(total_miners * min_usage_pct / 100)]. *)
Lemma find_golden_entries_iff (eval_data : list Entry)
    (miners : list (option (list Entry))) (min_usage_pct : Z) idx c :
  (idx, c) ∈ find_golden_entries dumps eval_data miners min_usage_pct <->
  (idx, c) ∈ golden_counts dumps eval_data miners /\
  (Z.quot (total_miners miners * min_usage_pct) 100 <= c)%Z.
Proof.
  unfold find_golden_entries. rewrite stable_sort_perm, list_elem_of_filter.
  simpl. tauto.
Qed.

(** ** Keys of the usage counts *)

Lemma map_fmap_eq {A B} (f : A -> B) (l : list A) : map f l = f <$> l.
Proof. induction l as [|x l IH]; simpl; [done|]. by rewrite IH. Qed.

Lemma fold_left_inv {A B} (P : B -> Prop) (f : B -> A -> B) (l : list A) (b : B) :
  (forall b a, P b -> P (f b a)) -> P b -> P (fold_left f l b).
Proof. revert b. induction l as [|a l IH]; intros b Hf Hb; simpl; auto. Qed.

Lemma counter_incr_keys k (c : list (nat * Z)) x :
  x ∈ map fst (counter_incr k c) <-> x = k \/ x ∈ map fst c.
Proof.
  induction c as [|[k' v] c IH]; simpl.
  - rewrite elem_of_cons, elem_of_nil. tauto.
  - destruct (Nat.eqb k k') eqn:E.
    + apply Nat.eqb_eq in E as ->. simpl. rewrite !elem_of_cons. tauto.
    + simpl. rewrite !elem_of_cons, IH. tauto.
Qed.

Lemma counter_incr_NoDup k (c : list (nat * Z)) :
  NoDup (map fst c) -> NoDup (map fst (counter_incr k c)).
Proof.
  induction c as [|[k' v] c IH]; simpl; intros H.
  - constructor; [apply not_elem_of_nil|constructor].
  - destruct (Nat.eqb k k') eqn:E; simpl; [exact H|].
    apply NoDup_cons in H as [Hn Hd]. apply Nat.eqb_neq in E.
    constructor; [|by apply IH].
    rewrite counter_incr_keys. intros [->|?]; done.
Qed.

Lemma golden_counts_NoDup (eval_data : list Entry) (miners : list (option (list Entry))) :
  NoDup (map fst (golden_counts dumps eval_data miners)).
Proof.
  unfold golden_counts. apply fold_left_inv; [|constructor].
  intros c [miner_data|] Hc; [|exact Hc].
  unfold golden_count_miner. apply fold_left_inv; [|exact Hc].
  intros c' e Hc'. destruct (lookup_str _ _); [by apply counter_incr_NoDup|exact Hc'].
Qed.

(** The golden indices are the keys of a dict: pairwise distinct. *)
Lemma golden_indices_NoDup (eval_data : list Entry)
    (miners : list (option (list Entry))) (pct : Z) :
  NoDup (map fst (find_golden_entries dumps eval_data miners pct)).
Proof.
  unfold find_golden_entries. rewrite map_fmap_eq, stable_sort_perm.
  apply (sublist_NoDup _ (fst <$> golden_counts dumps eval_data miners)).
  - rewrite <- map_fmap_eq. apply golden_counts_NoDup.
  - apply fmap_sublist, sublist_filter.
Qed.

(** ** The golden passes *)

Lemma golden_unique_pass_spec (eval_data : list Entry) used target golden :
  forall picked gu p gu',
  golden_unique_pass dumps eval_data used target golden picked gu = (p, gu') ->
  exists added,
    p = picked ++ added /\
    gu' = (gu + Z.of_nat (length added))%Z /\
    added `sublist_of` golden /\
    (forall x, x ∈ added -> exists e, eval_data !! x = Some e /\ dumps e ∉ used) /\
    ((Z.of_nat (length picked) <= target)%Z -> (Z.of_nat (length p) <= target)%Z).
Proof.
  induction golden as [|idx g IH]; intros picked gu p gu' Hrun; simpl in Hrun.
  - injection Hrun as <- <-. exists []. rewrite app_nil_r.
    split; [done|]. split; [simpl; lia|]. split; [constructor|].
    split; [intros x Hx; by apply elem_of_nil in Hx|done].
  - case_bool_decide as Hstop.
    { injection Hrun as <- <-. exists []. rewrite app_nil_r.
      split; [done|]. split; [simpl; lia|]. split; [apply sublist_nil_l|].
      split; [intros x Hx; by apply elem_of_nil in Hx|done]. }
    destruct (eval_data !! idx) as [e|] eqn:He.
    + case_bool_decide as Hu.
      * destruct (IH _ _ _ _ Hrun) as (added & -> & -> & Hsub & Hok & Hlen).
        exists (idx :: added). rewrite <- app_assoc. simpl.
        split; [done|]. split; [simpl; lia|]. split; [by apply sublist_skip|].
        split.
        -- intros x Hx. apply elem_of_cons in Hx as [->|Hx]; [eauto|by apply Hok].
        -- intros _. rewrite <- app_assoc in Hlen. apply Hlen.
           rewrite length_app. simpl. lia.
      * destruct (IH _ _ _ _ Hrun) as (added & -> & -> & Hsub & Hok & Hlen).
        exists added. split; [done|]. split; [done|]. split; [by apply sublist_cons|].
        split; [done|]. intros _. apply Hlen. lia.
    + destruct (IH _ _ _ _ Hrun) as (added & -> & -> & Hsub & Hok & Hlen).
      exists added. split; [done|]. split; [done|]. split; [by apply sublist_cons|].
      split; [done|]. intros _. apply Hlen. lia.
Qed.

Lemma golden_reused_pass_spec (eval_data : list Entry) used target golden :
  forall picked gr p gr',
  golden_reused_pass dumps eval_data used target golden picked gr = (p, gr') ->
  exists added,
    p = picked ++ added /\
    gr' = (gr + Z.of_nat (length added))%Z /\
    (forall x, x ∈ added -> exists e, eval_data !! x = Some e /\ dumps e ∈ used) /\
    (NoDup picked -> NoDup p) /\
    ((gr <= max_reused_golden)%Z -> (gr' <= max_reused_golden)%Z) /\
    ((Z.of_nat (length picked) <= target)%Z -> (Z.of_nat (length p) <= target)%Z).
Proof.
  induction golden as [|idx g IH]; intros picked gr p gr' Hrun; simpl in Hrun.
  - injection Hrun as <- <-. exists []. rewrite app_nil_r.
    split; [done|]. split; [simpl; lia|].
    split; [intros x Hx; by apply elem_of_nil in Hx|]. tauto.
  - assert (Hnil : p = picked -> gr' = gr ->
      exists added,
        p = picked ++ added /\ gr' = (gr + Z.of_nat (length added))%Z /\
        (forall x, x ∈ added -> exists e, eval_data !! x = Some e /\ dumps e ∈ used) /\
        (NoDup picked -> NoDup p) /\
        ((gr <= max_reused_golden)%Z -> (gr' <= max_reused_golden)%Z) /\
        ((Z.of_nat (length picked) <= target)%Z -> (Z.of_nat (length p) <= target)%Z)).
    { intros -> ->. exists []. rewrite app_nil_r. split; [done|]. split; [simpl; lia|].
      split; [intros x Hx; by apply elem_of_nil in Hx|]. tauto. }
    case_bool_decide as Hstop; [injection Hrun as <- <-; by apply Hnil|].
    case_bool_decide as Hcap; [injection Hrun as <- <-; by apply Hnil|].
    destruct (eval_data !! idx) as [e|] eqn:He; [|by apply IH].
    case_bool_decide as Hnew; [|by apply IH].
    case_bool_decide as Hu; [|by apply IH].
    destruct (IH _ _ _ _ Hrun) as (added & -> & -> & Hok & Hnd & Hcap' & Hlen).
    exists (idx :: added). rewrite <- app_assoc. simpl.
    split; [done|]. split; [simpl; lia|].
    split; [intros x Hx; apply elem_of_cons in Hx as [->|Hx]; [eauto|by apply Hok]|].
    split.
    { intros Hp. rewrite <- app_assoc in Hnd. apply Hnd.
      apply NoDup_app. split; [done|]. split; [|apply NoDup_singleton].
      intros x Hx Hx'. apply list_elem_of_singleton in Hx' as ->. done. }
    split; [intros _; apply Hcap'; lia|].
    intros _. rewrite <- app_assoc in Hlen. apply Hlen. rewrite length_app. simpl. lia.
Qed.

(** ** The fill phase *)

Lemma fill_available_go_filter eu used (picked : list nat) k (l : list Entry) :
  fill_available_go dumps eu used picked k l =
  filter (fun i => i ∉ picked) (fill_available_go dumps eu used [] k l).
Proof.
  revert k. induction l as [|e l IH]; intros k; simpl; [done|].
  destruct (eu && bool_decide (dumps e ∈ used)); case_bool_decide as Hk;
    rewrite ?filter_cons, IH; try done.
  - rewrite decide_False; [done|tauto].
  - rewrite decide_True; done.
Qed.

Lemma fill_available_go_elem eu used (picked : list nat) k (l : list Entry) i :
  i ∈ fill_available_go dumps eu used picked k l ->
  k <= i /\ (i ∉ picked) /\
  exists e, l !! (i - k) = Some e /\ (eu = true -> dumps e ∉ used).
Proof.
  revert k. induction l as [|e l IH]; intros k; simpl.
  - intros Hi. by apply elem_of_nil in Hi.
  - case_bool_decide as Hk.
    + intros Hi. destruct (IH _ Hi) as (? & ? & e' & He' & ?).
      split; [lia|]. split; [done|]. exists e'.
      replace (i - k) with (S (i - S k)) by lia. done.
    + destruct (eu && bool_decide (dumps e ∈ used)) eqn:Hu.
      * intros Hi. destruct (IH _ Hi) as (? & ? & e' & He' & ?).
        split; [lia|]. split; [done|]. exists e'.
        replace (i - k) with (S (i - S k)) by lia. done.
      * intros Hi. apply elem_of_cons in Hi as [->|Hi].
        -- split; [lia|]. split; [done|]. exists e.
           rewrite Nat.sub_diag. split; [done|].
           intros ->. simpl in Hu. by apply bool_decide_eq_false in Hu.
        -- destruct (IH _ Hi) as (? & ? & e' & He' & ?).
           split; [lia|]. split; [done|]. exists e'.
           replace (i - k) with (S (i - S k)) by lia. done.
Qed.

Lemma fill_available_go_NoDup eu used (picked : list nat) k (l : list Entry) :
  NoDup (fill_available_go dumps eu used picked k l).
Proof.
  revert k. induction l as [|e l IH]; intros k; simpl; [constructor|].
  case_bool_decide; [apply IH|].
  destruct (eu && _); [apply IH|].
  constructor; [|apply IH].
  intros Hk. apply fill_available_go_elem in Hk as (? & _). lia.
Qed.

Lemma fill_available_go_length used k (l : list Entry) :
  length (fill_available_go dumps true used [] k l) =
  length (filter (fun e => dumps e ∉ used) l).
Proof.
  revert k. induction l as [|e l IH]; intros k; simpl; [done|].
  try rewrite (bool_decide_eq_false_2 (k ∈ [])) by apply not_elem_of_nil.
  rewrite filter_cons. simpl.
  case_bool_decide as Hu; simpl.
  - rewrite decide_False by tauto. apply IH.
  - rewrite decide_True by done. simpl. by rewrite IH.
Qed.

(** Under [ensure_unique], the fill candidates are the unused records minus
    the selected ones; the selected unused ones all come from [p1]. *)
Lemma fill_available_count (eval_data : list Entry) used (picked p1 : list nat) :
  (forall x, x ∈ picked -> x ∉ p1 -> exists e, eval_data !! x = Some e /\ dumps e ∈ used) ->
  length (filter (fun e => dumps e ∉ used) eval_data) <=
  length (fill_available dumps eval_data true used picked) + length p1.
Proof.
  intros Hp. unfold fill_available.
  rewrite fill_available_go_filter, <- (fill_available_go_length used 0 eval_data).
  set (F := fill_available_go dumps true used [] 0 eval_data).
  pose proof (filter_app_complement (fun i => i ∈ picked) F) as Hperm.
  apply Permutation_length in Hperm. rewrite length_app in Hperm.
  enough (length (filter (fun i => i ∈ picked) F) <= length p1) by lia.
  apply submseteq_length, NoDup_submseteq.
  - eapply sublist_NoDup; [apply fill_available_go_NoDup|apply sublist_filter].
  - intros x Hx. apply list_elem_of_filter in Hx as [Hxp HxF].
    destruct (decide (x ∈ p1)) as [|Hn]; [done|].
    destruct (Hp x Hxp Hn) as (e & He & Hu).
    apply fill_available_go_elem in HxF as (_ & _ & e' & He' & Hu').
    rewrite Nat.sub_0_r, He in He'. injection He' as <-.
    by destruct (Hu' eq_refl).
Qed.

Lemma omap_lookup_length (eval_data : list Entry) (p : list nat) :
  (forall x, x ∈ p -> is_Some (eval_data !! x)) ->
  length (omap (fun idx => eval_data !! idx) p) = length p.
Proof.
  induction p as [|x p IH]; intros Hv; simpl; [done|].
  destruct (Hv x (list_elem_of_here _ _)) as [e He]. rewrite He. simpl.
  f_equal. apply IH. intros y Hy. apply Hv. by apply list_elem_of_further.
Qed.

(** ** The whole selector *)

Lemma golden_phases_spec (eval_data : list Entry) top existing target pct eu p2 gu gr :
  golden_phases dumps eval_data top existing target pct eu = (p2, gu, gr) ->
  exists p1 added2,
    p2 = p1 ++ added2 /\
    NoDup p2 /\
    (forall x, x ∈ p1 -> exists e, eval_data !! x = Some e /\
                         dumps e ∉ used_entries dumps eu existing) /\
    (forall x, x ∈ added2 -> exists e, eval_data !! x = Some e /\
                         dumps e ∈ used_entries dumps eu existing) /\
    (Z.of_nat (length added2) <= max_reused_golden)%Z /\
    ((0 <= target)%Z -> (Z.of_nat (length p2) <= target)%Z).
Proof.
  unfold golden_phases.
  destruct (golden_unique_pass dumps eval_data _ target _ [] 0) as [p1 gu1] eqn:E1.
  destruct (golden_reused_pass dumps eval_data _ target _ p1 0) as [p2' gr'] eqn:E2.
  intros H. injection H as <- <- <-.
  apply golden_unique_pass_spec in E1 as (a1 & Hp1 & _ & Hsub & Hok1 & Hlen1).
  simpl in Hp1. subst p1.
  apply golden_reused_pass_spec in E2 as (a2 & -> & -> & Hok2 & Hnd & Hcap & Hlen2).
  exists a1, a2. split; [done|]. split.
  { apply Hnd. eapply sublist_NoDup; [|exact Hsub]. apply golden_indices_NoDup. }
  split; [done|]. split; [done|]. split.
  - unfold max_reused_golden in *. lia.
  - intros Ht. apply Hlen2, Hlen1. simpl. lia.
Qed.

Section Fill.

Context (shuffle : list nat -> list nat).
Hypothesis shuffle_perm : forall l, shuffle l ≡ₚ l.

Lemma fill_phase_spec (eval_data : list Entry) eu used target p2 p3 short :
  fill_phase dumps shuffle eval_data eu used target p2 = (p3, short) ->
  NoDup p2 ->
  exists fill,
    p3 = p2 ++ fill /\
    NoDup p3 /\
    (forall x, x ∈ fill -> exists e, eval_data !! x = Some e /\
                          (eu = true -> dumps e ∉ used)) /\
    ((Z.of_nat (length p2) <= target)%Z -> (Z.of_nat (length p3) <= target)%Z).
Proof.
  unfold fill_phase. intros Hf Hnd.
  case_bool_decide as Hr; [|injection Hf as <- _; exists []; rewrite app_nil_r;
    split; [done|]; split; [done|]; split; [intros x Hx; by apply elem_of_nil in Hx|done]].
  injection Hf as <- _.
  set (avail := fill_available dumps eval_data eu used p2).
  set (n := Z.to_nat _).
  assert (Hin : forall x, x ∈ take n (shuffle avail) -> x ∈ avail).
  { intros x Hx. pose proof (elem_of_sublist _ _ _ Hx (sublist_take _ _)) as Hx'.
    by rewrite (shuffle_perm avail) in Hx'. }
  exists (take n (shuffle avail)). split; [done|]. split.
  - apply NoDup_app. split; [done|]. split.
    + intros x Hx Hx'. apply Hin in Hx'.
      apply fill_available_go_elem in Hx' as (_ & Hn & _). done.
    + eapply sublist_NoDup; [|apply sublist_take].
      rewrite (shuffle_perm avail). apply fill_available_go_NoDup.
  - split.
    + intros x Hx. apply Hin in Hx.
      apply fill_available_go_elem in Hx as (_ & _ & e & He & Hu).
      rewrite Nat.sub_0_r in He. eauto.
    + intros _. rewrite length_app, length_take.
      unfold n. case_bool_decide; lia.
Qed.

Lemma fill_phase_enough (eval_data : list Entry) eu used target p2 p3 short :
  fill_phase dumps shuffle eval_data eu used target p2 = (p3, short) ->
  (Z.of_nat (length p2) <= target)%Z ->
  (target - Z.of_nat (length p2) <=
     Z.of_nat (length (fill_available dumps eval_data eu used p2)))%Z ->
  Z.of_nat (length p3) = target /\ short = None.
Proof.
  unfold fill_phase. intros Hf Hle Hav.
  case_bool_decide as Hr; [|injection Hf as <- <-; split; [lia|done]].
  rewrite bool_decide_eq_false_2 in Hf by lia.
  injection Hf as <- <-. split; [|done].
  rewrite length_app, length_take, (length_Permutation_proper _ _ (shuffle_perm _)).
  lia.
Qed.

Lemma fill_phase_short (eval_data : list Entry) eu used target p2 :
  let avail := fill_available dumps eval_data eu used p2 in
  (Z.of_nat (length avail) < target - Z.of_nat (length p2))%Z ->
  fill_phase dumps shuffle eval_data eu used target p2 =
    (p2 ++ shuffle avail, Some (length avail, (target - Z.of_nat (length p2))%Z)).
Proof.
  intros avail Hs. unfold fill_phase.
  rewrite bool_decide_eq_true_2 by lia. fold avail.
  rewrite bool_decide_eq_true_2 by lia.
  rewrite Nat2Z.id, take_ge; [done|].
  by rewrite (length_Permutation_proper _ _ (shuffle_perm _)).
Qed.

End Fill.

Lemma filter_none {A} (P : A -> Prop) `{!forall x, Decision (P x)} (l : list A) :
  (forall x, x ∈ l -> ~ P x) -> filter P l = [].
Proof.
  induction l as [|x l IH]; intros Hl; [done|].
  rewrite filter_cons, decide_False.
  - apply IH. intros y Hy. apply Hl. by apply list_elem_of_further.
  - apply Hl, list_elem_of_here.
Qed.


(** C6 (amended). With [ensure_unique] set and [random.shuffle] a
    permutation, if at least [target_size >= 0] records of [eval_data] have a
    fingerprint outside every existing miner dataset (for instance
    [target_size = 250]), the run writes exactly [target_size] entries and
    at most [max_reused_golden = 80] of the selected positions are golden
    and already used by an existing miner. *)
Theorem golden_selector_size_and_cap (shuffle : list nat -> list nat)
    (shuffle_perm : forall l, shuffle l ≡ₚ l)
    (eval_data : list Entry) top_miners existing target pct :
  (0 <= target)%Z ->
  (target <= Z.of_nat (length (filter
      (fun e => dumps e ∉ concat (map (map dumps) existing)) eval_data)))%Z ->
  let r := prepare_golden_dataset dumps shuffle eval_data top_miners existing
             target pct true in
  Z.of_nat (length (run_written r)) = target /\
  (Z.of_nat (reused_golden_count dumps eval_data top_miners existing pct
               (run_picked r)) <= max_reused_golden)%Z.
Proof.
  intros Ht Henough r. unfold r, prepare_golden_dataset.
  destruct (golden_phases dumps eval_data top_miners existing target pct true)
    as [[p2 gu] gr] eqn:Eph.
  destruct (golden_phases_spec _ _ _ _ _ _ _ _ _ Eph)
    as (p1 & a2 & Hp2 & Hnd & Hok1 & Hok2 & Hcap & Hlen).
  destruct (fill_phase dumps shuffle eval_data true _ target p2) as [p3 short] eqn:Efl.
  destruct (fill_phase_spec _ shuffle_perm _ _ _ _ _ _ _ Efl Hnd)
    as (fill & Hp3 & Hnd3 & Hokf & _).
  unfold used_entries in *. simpl.
  split.
  - rewrite omap_lookup_length.
    + apply (fill_phase_enough _ shuffle_perm _ _ _ _ _ _ _ Efl); [by apply Hlen|].
      pose proof (fill_available_count eval_data (concat (map (map dumps) existing)) p2 p1) as Hc.
      assert (Hc' : length (filter (fun e => dumps e ∉ concat (map (map dumps) existing))
                      eval_data) <=
                    length (fill_available dumps eval_data true
                      (concat (map (map dumps) existing)) p2) + length p1).
      { apply Hc. intros x Hx Hn. subst p2.
        apply elem_of_app in Hx as [Hx|Hx]; [done|]. by apply Hok2. }
      assert (length p1 <= length p2) by (subst p2; rewrite length_app; lia).
      lia.
    + intros x Hx. subst p3 p2.
      apply elem_of_app in Hx as [Hx|Hx]; [apply elem_of_app in Hx as [Hx|Hx]|].
      * destruct (Hok1 x Hx) as (e & He & _). by rewrite He.
      * destruct (Hok2 x Hx) as (e & He & _). by rewrite He.
      * destruct (Hokf x Hx) as (e & He & _). by rewrite He.
  - unfold reused_golden_count. subst p3 p2.
    rewrite !filter_app, !length_app.
    rewrite (filter_none _ p1), (filter_none _ fill).
    + pose proof (length_filter (fun idx : nat =>
        (bool_decide (idx ∈ map fst (find_golden_entries dumps eval_data top_miners pct)) &&
         match eval_data !! idx with
         | Some e => bool_decide (dumps e ∈ concat (map (map dumps) existing))
         | None => false
         end)%bool = true) a2).
      unfold max_reused_golden in *. simpl. lia.
    + intros x Hx. destruct (Hokf x Hx) as (e & He & Hu). rewrite He.
      rewrite (bool_decide_eq_false_2 (dumps e ∈ _)) by (first [exact Hu | by apply Hu]).
      by rewrite andb_false_r.
    + intros x Hx. destruct (Hok1 x Hx) as (e & He & Hu). rewrite He.
      rewrite (bool_decide_eq_false_2 (dumps e ∈ _)) by (first [exact Hu | by apply Hu]).
      by rewrite andb_false_r.
Qed.

(** C5 (amended). When, after the golden passes selected [p2], fewer
    positions are available for the fill than [remaining = target_size -
    len(selected_entries)], [prepare_golden_dataset] reports the shortfall
    [(len(available_indices), remaining)], adds every available position
    and writes the resulting dataset, which has fewer than [target_size]
    entries, all of them records of [eval_data]. [main] of
    prepare_unique_dataset.py, on the contrary, writes nothing exactly when
    [find_unique_entries] returns fewer entries than requested. *)
Theorem golden_selector_shortfall `{!EqDecision Entry} (shuffle : list nat -> list nat)
    (shuffle_perm : forall l, shuffle l ≡ₚ l)
    (eval_data : list Entry) top_miners existing target pct eu p2 gu gr :
  golden_phases dumps eval_data top_miners existing target pct eu = (p2, gu, gr) ->
  let avail := fill_available dumps eval_data eu (used_entries dumps eu existing) p2 in
  (Z.of_nat (length avail) < target - Z.of_nat (length p2))%Z ->
  let r := prepare_golden_dataset dumps shuffle eval_data top_miners existing
             target pct eu in
  run_shortfall r = Some (length avail, (target - Z.of_nat (length p2))%Z) /\
  run_picked r = p2 ++ shuffle avail /\
  length (run_written r) = length p2 + length avail /\
  (Z.of_nat (length (run_written r)) < target)%Z /\
  (forall e, e ∈ run_written r -> e ∈ eval_data) /\
  (forall (sample : list Entry -> nat -> list Entry) eval' miners num_entries,
   prepare_unique_main dumps sample eval' miners num_entries = None <->
   length (find_unique_entries dumps sample eval' miners num_entries 100) < num_entries).
Proof.
  intros Eph avail Hs r.
  assert (Hu : forall (sample : list Entry -> nat -> list Entry) eval' miners num_entries,
     prepare_unique_main dumps sample eval' miners num_entries = None <->
     length (find_unique_entries dumps sample eval' miners num_entries 100) < num_entries).
  { intros sample eval' miners n. unfold prepare_unique_main.
    destruct (Nat.ltb_spec (length (find_unique_entries dumps sample eval' miners n 100)) n);
      split; intros Hr; (done || lia). }
  assert (Hin : forall e, e ∈ run_written r -> e ∈ eval_data).
  { intros e He. unfold r, prepare_golden_dataset in He.
    destruct (golden_phases _ _ _ _ _ _ _) as [[p2' gu'] gr'].
    destruct (fill_phase _ _ _ _ _ _ _) as [p3 short]. simpl in He.
    apply list_elem_of_omap in He as (x & _ & Hx).
    by apply list_elem_of_lookup_2 in Hx. }
  refine ((fun H => conj (proj1 H) (conj (proj1 (proj2 H))
            (conj (proj1 (proj2 (proj2 H))) (conj (proj2 (proj2 (proj2 H)))
            (conj Hin Hu))))) _).
  unfold r, prepare_golden_dataset. rewrite Eph.
  destruct (golden_phases_spec _ _ _ _ _ _ _ _ _ Eph)
    as (p1 & a2 & Hp2 & Hnd & Hok1 & Hok2 & _ & _).
  rewrite (fill_phase_short shuffle shuffle_perm _ _ _ _ _ Hs). simpl. fold avail.
  assert (Hw : length (omap (fun idx => eval_data !! idx) (p2 ++ shuffle avail)) =
               length p2 + length avail).
  { rewrite omap_lookup_length.
    - by rewrite length_app, (length_Permutation_proper _ _ (shuffle_perm _)).
    - intros x Hx. apply elem_of_app in Hx as [Hx|Hx].
      + subst p2. apply elem_of_app in Hx as [Hx|Hx].
        * destruct (Hok1 x Hx) as (e & He & _). by rewrite He.
        * destruct (Hok2 x Hx) as (e & He & _). by rewrite He.
      + rewrite (shuffle_perm avail) in Hx.
        apply fill_available_go_elem in Hx as (_ & _ & e & He & _).
        rewrite Nat.sub_0_r in He. by rewrite He. }
  split; [done|]. split; [done|]. split; [done|]. rewrite Hw. lia.
Qed.

End Properties.

(** C1 (code): a miner whose dataset holds the same evaluation record twice
    adds 2 to that position's count, both in [find_golden_entries] and in the
    frequency loop of analyze_top_miners.py; with a single miner the entry
    is reported as used by 200% of the miners. *)
Theorem usage_count_per_occurrence :
  golden_counts num_dumps [1] [Some [1; 1]] = [(0, 2%Z)] /\
  analyze_entry_counts num_dumps [1] [Some [1; 1]] = [(0, 2%Z)] /\
  find_golden_entries num_dumps [1] [Some [1; 1]] 50 = [(0, 2%Z)].
Proof. split; [|split]; reflexivity. Qed.

(** C2 (code): the golden threshold is [int(total * pct / 100)], rounded
    down: with 3 analysed miners and [min_usage_pct = 50] a position used by
    one of them is golden, while [ceil(0.5 * 3) = 2]. With 10 miners and a
    position used by 5 of them, it is golden at 50 and not at 60. *)
Theorem golden_threshold_rounds_down :
  find_golden_entries num_dumps [7] [Some [7]; Some []; Some []] 50 = [(0, 1%Z)] /\
  (1 < Z.of_nat (Nat.div (50 * 3 + 99) 100))%Z /\
  let ten := [Some [5]; Some [5]; Some [5]; Some [5]; Some [5];
              Some []; Some []; Some []; Some []; Some []] in
  find_golden_entries num_dumps [0; 1; 2; 3; 4; 5] ten 50 = [(5, 5%Z)] /\
  find_golden_entries num_dumps [0; 1; 2; 3; 4; 5] ten 60 = [].
Proof. split; [|split; [|split]]; reflexivity. Qed.

(** C3: a dataset holding the same record twice gets its position twice. *)
Lemma find_entry_positions_repeated :
  find_entry_positions num_dumps [2; 2] [1; 2] = [1; 1] /\
  ~ NoDup (find_entry_positions num_dumps [2; 2] [1; 2]).
Proof.
  split; [reflexivity|].
  apply (bool_decide_unpack _). vm_compute. exact I.
Qed.

Lemma find_entry_positions_spec_witness :
  NoDup (map num_dumps [2; 7]) /\
  NoDup (find_entry_positions num_dumps [2; 7] [1; 2; 7]).
Proof.
  assert (H : NoDup (map num_dumps [2; 7]))
    by (apply (bool_decide_unpack _); vm_compute; exact I).
  split; [exact H|].
  exact (proj2 (proj2 (proj2 (find_entry_positions_spec num_dumps [2; 7] [1; 2; 7]))) H).
Defined.

Lemma get_dataset_hash_permutation_witness :
  [1; 2] ≡ₚ [2; 1] /\
  get_dataset_hash num_dumps id [1; 2] = get_dataset_hash num_dumps id [2; 1].
Proof.
  assert (H : [1; 2] ≡ₚ [2; 1]) by apply perm_swap.
  split; [exact H|].
  exact (get_dataset_hash_permutation num_dumps id _ _ H).
Defined.

Lemma check_miner_vs_eval_complete_witness :
  ~ NoDup (map num_dumps [1; 1]) /\
  exists r, check_miner_vs_eval num_dumps (Some [1; 1]) [1] 100 = Some r /\
            is_complete_duplicate r = false.
Proof.
  assert (Hn : ~ NoDup (map num_dumps [1; 1]))
    by (apply (bool_decide_unpack _); vm_compute; exact I).
  split; [exact Hn|].
  destruct (check_miner_vs_eval_complete num_dumps [1; 1] [1] 100) as (r & Hr & _ & Hd).
  exists r. split; [exact Hr|]. exact (Hd Hn).
Defined.

(** C4: the loader of check_datasets.py fails on a malformed line, where the
    lenient loader drops it. *)
Lemma strict_loader_fails_on_malformed_line :
  load_jsonl_strict JsonText.loads None ["1"; "{"] = None /\
  load_jsonl_lenient JsonText.loads ["1"; "{"] = ["1"].
Proof. split; reflexivity. Qed.

Lemma load_jsonl_policies_witness :
  JsonText.loads "{" = None /\ JsonText.loads "[2]" = Some "[2]" /\
  load_jsonl_lenient JsonText.loads ["1"; "{"; "[2]"] = ["1"; "[2]"] /\
  load_jsonl_strict JsonText.loads None ["1"; "{"] = None.
Proof.
  assert (Hb : JsonText.loads "{" = None) by reflexivity.
  assert (Hg : JsonText.loads "[2]" = Some "[2]") by reflexivity.
  destruct (load_jsonl_policies JsonText.loads) as (Hd & Hk & Hs).
  split; [exact Hb|]. split; [exact Hg|]. split.
  - etrans; [exact (Hd ["1"] "{" ["[2]"] Hb)|reflexivity].
  - apply Hs. exists "{". split; [right; left|]. split; [discriminate|reflexivity].
Defined.

(** C5: prepare_unique_dataset.py, short of unique entries, writes nothing,
    while prepare_golden_dataset.py writes its short dataset and reports the
    shortfall. *)
Lemma unique_builder_writes_nothing_when_short :
  prepare_unique_main num_dumps (fun l k => take k l) [1] [] 2 = None /\
  let r := prepare_golden_dataset num_dumps id [1] [] [] 2 50 true in
  run_shortfall r = Some (1, 2%Z) /\ run_written r = [1].
Proof. split; [|split]; reflexivity. Qed.

Lemma golden_selector_shortfall_witness :
  (forall l : list nat, id l ≡ₚ l) /\
  golden_phases num_dumps [0; 1; 2; 3] [Some [1]; Some [1; 2]] [[1]; [3]] 5 50 true
    = ([2; 1], 1%Z, 1%Z) /\
  let r := prepare_golden_dataset num_dumps id [0; 1; 2; 3]
             [Some [1]; Some [1; 2]] [[1]; [3]] 5 50 true in
  run_shortfall r = Some (1, 3%Z) /\
  run_picked r = [2; 1] ++ id (fill_available num_dumps [0; 1; 2; 3] true
                               (used_entries num_dumps true [[1]; [3]]) [2; 1]) /\
  length (run_written r) = 2 + 1 /\
  (Z.of_nat (length (run_written r)) < 5)%Z /\
  (forall e, e ∈ run_written r -> e ∈ [0; 1; 2; 3]) /\
  (forall (sample : list nat -> nat -> list nat) eval' miners num_entries,
   prepare_unique_main num_dumps sample eval' miners num_entries = None <->
   length (find_unique_entries num_dumps sample eval' miners num_entries 100) < num_entries).
Proof.
  assert (Hsh : forall l : list nat, id l ≡ₚ l) by (intros l; reflexivity).
  assert (Hph : golden_phases num_dumps [0; 1; 2; 3] [Some [1]; Some [1; 2]]
                  [[1]; [3]] 5 50 true = ([2; 1], 1%Z, 1%Z)) by reflexivity.
  split; [exact Hsh|]. split; [exact Hph|].
  exact (golden_selector_shortfall num_dumps id Hsh _ _ _ _ _ _ _ _ _ Hph
           ltac:(vm_compute; reflexivity)).
Defined.

(** C6: without [ensure_unique] ([--no_unique_check]) the first golden pass
    takes every golden entry, so 81 golden entries of an existing miner can
    be selected, over the cap of 80. *)
Lemma reused_golden_over_cap_without_unique_check :
  let eval_data := seq 0 300 in
  let r := prepare_golden_dataset num_dumps id eval_data [Some (seq 0 81)]
             [seq 0 81] 250 50 false in
  length (run_written r) = 250 /\
  reused_golden_count num_dumps eval_data [Some (seq 0 81)] [seq 0 81] 50
    (run_picked r) = 81.
Proof. vm_compute. split; reflexivity. Qed.

Lemma golden_selector_size_and_cap_witness :
  (forall l : list nat, id l ≡ₚ l) /\ (0 <= 250)%Z /\
  (250 <= Z.of_nat (length (filter
      (fun e => num_dumps e ∉ concat (map (map num_dumps) [seq 0 90])) (seq 0 400))))%Z /\
  let r := prepare_golden_dataset num_dumps id (seq 0 400) [Some (seq 0 100)]
             [seq 0 90] 250 50 true in
  Z.of_nat (length (run_written r)) = 250%Z /\
  (Z.of_nat (reused_golden_count num_dumps (seq 0 400) [Some (seq 0 100)]
               [seq 0 90] 50 (run_picked r)) <= max_reused_golden)%Z.
Proof.
  assert (Hsh : forall l : list nat, id l ≡ₚ l) by (intros l; reflexivity).
  assert (H0 : (0 <= 250)%Z) by lia.
  assert (Hn : (250 <= Z.of_nat (length (filter
      (fun e => num_dumps e ∉ concat (map (map num_dumps) [seq 0 90])) (seq 0 400))))%Z)
    by (vm_compute; discriminate).
  split; [exact Hsh|]. split; [exact H0|]. split; [exact Hn|].
  exact (golden_selector_size_and_cap num_dumps id Hsh _ _ _ _ _ H0 Hn).
Defined.

Lemma duplicate_groups_spec_witness :
  NoDup ([("a"%string, [1; 2; 3]); ("b"%string, [1; 2; 3]); ("c"%string, [4])] : list (string * list nat)).*1 /\
  NoDup (concat (duplicate_groups (count_similar num_dumps) 1
    [("a"%string, [1; 2; 3]); ("b"%string, [1; 2; 3]); ("c"%string, [4])])).
Proof.
  assert (H : NoDup ([("a"%string, [1; 2; 3]); ("b"%string, [1; 2; 3]); ("c"%string, [4])]
                     : list (string * list nat)).*1)
    by (apply (bool_decide_unpack _); vm_compute; exact I).
  split; [exact H|].
  exact (proj1 (duplicate_groups_spec (count_similar num_dumps) 1 _ H)).
Defined.



(** * Further properties of the scripts *)

Section Overlap.

Context {Entry : Type} (dumps : Entry -> string).

Lemma length_NoDup_same_elems {A} (a b : list A) :
  NoDup a -> NoDup b -> (forall x, x ∈ a <-> x ∈ b) -> length a = length b.
Proof. intros Ha Hb H. apply Permutation_length, NoDup_Permutation; done. Qed.

Lemma common_fp_elem (l1 l2 : list Entry) s :
  s ∈ filter (fun s => s ∈ fp_set dumps l2) (fp_set dumps l1) <->
  s ∈ map dumps l1 /\ s ∈ map dumps l2.
Proof.
  rewrite list_elem_of_filter. unfold fp_set. rewrite !elem_of_remove_dups. tauto.
Qed.

Lemma common_fp_NoDup (l1 l2 : list Entry) :
  NoDup (filter (fun s => s ∈ fp_set dumps l2) (fp_set dumps l1)).
Proof. apply NoDup_filter, NoDup_remove_dups. Qed.

Lemma in_map_dumps (l : list Entry) e : e ∈ l -> dumps e ∈ map dumps l.
Proof. intros H. apply list_elem_of_In, in_map, list_elem_of_In, H. Qed.

Lemma in_map_dumps_inv (l : list Entry) s :
  s ∈ map dumps l -> exists e, e ∈ l /\ dumps e = s.
Proof.
  intros H. apply list_elem_of_In, in_map_iff in H as (e & <- & He).
  exists e. split; [by apply list_elem_of_In|done].
Qed.

(** [count_similar] only depends on the two sets of fingerprints. *)
Lemma count_similar_ext (l1 l1' l2 l2' : list Entry) :
  (forall s, s ∈ map dumps l1 <-> s ∈ map dumps l1') ->
  (forall s, s ∈ map dumps l2 <-> s ∈ map dumps l2') ->
  count_similar dumps l1 l2 = count_similar dumps l1' l2'.
Proof.
  intros H1 H2. unfold count_similar.
  apply length_NoDup_same_elems; [apply common_fp_NoDup..|].
  intros s. rewrite !common_fp_elem, H1, H2. done.
Qed.

Lemma count_similar_le_filter (l1 l2 : list Entry) :
  count_similar dumps l1 l2 <= length (filter (fun e => dumps e ∈ map dumps l2) l1).
Proof.
  unfold count_similar. rewrite <- (length_map dumps (filter _ l1)).
  apply submseteq_length, NoDup_submseteq; [apply common_fp_NoDup|].
  intros s Hs. apply common_fp_elem in Hs as [H1 H2].
  apply in_map_dumps_inv in H1 as (e & He & <-).
  apply in_map_dumps, list_elem_of_filter. done.
Qed.

Lemma max_overlap_le (t : list Entry) (miners : list (list Entry)) k :
  max_overlap dumps t miners <= k <->
  forall m, m ∈ miners -> count_similar dumps t m <= k.
Proof.
  unfold max_overlap.
  assert (Hgen : forall acc, fold_left (fun m md => Nat.max m (count_similar dumps t md))
                                miners acc <= k <->
                             acc <= k /\ forall m, m ∈ miners -> count_similar dumps t m <= k).
  { induction miners as [|m ms IH]; intros acc; simpl.
    - split; [intros; split; [done|]; intros m Hm; by apply elem_of_nil in Hm|tauto].
    - rewrite IH. split.
      + intros [Hacc Hms]. split; [lia|].
        intros m' Hm'. apply elem_of_cons in Hm' as [->|Hm']; [lia|auto].
      + intros [Hacc Hms]. split; [|intros; apply Hms; by apply list_elem_of_further].
        pose proof (Hms m (list_elem_of_here _ _)). lia. }
  rewrite Hgen. split; [tauto|]. intros H. split; [lia|done].
Qed.

Lemma count_similar_sym (l1 l2 : list Entry) :
  count_similar dumps l1 l2 = count_similar dumps l2 l1.
Proof.
  unfold count_similar.
  apply length_NoDup_same_elems; [apply common_fp_NoDup..|].
  intros s. rewrite !common_fp_elem. tauto.
Qed.

Lemma count_similar_zero (l1 l2 : list Entry) :
  count_similar dumps l1 l2 = 0 <-> forall e, e ∈ l1 -> dumps e ∉ map dumps l2.
Proof.
  unfold count_similar. rewrite length_zero_iff_nil. split.
  - intros Hnil e He Hin.
    apply (filter_nil_not_elem_of _ _ (dumps e) Hnil).
    + unfold fp_set. rewrite elem_of_remove_dups. done.
    + unfold fp_set. rewrite elem_of_remove_dups. by apply in_map_dumps.
  - intros H. destruct (filter _ _) as [|s l] eqn:E; [done|].
    assert (Hs : s ∈ s :: l) by apply list_elem_of_here.
    rewrite <- E, common_fp_elem in Hs. destruct Hs as [H1 H2].
    apply in_map_dumps_inv in H1 as (e & He & <-). by destruct (H e He).
Qed.

End Overlap.

Section OverlapFacts.

Context {Entry : Type} (dumps : Entry -> string).

(** [count_similar(jsonl1, jsonl2)] is symmetric: compare_datasets.py calls
    it as [count_similar(eval_data, miner_data)], check_datasets.py as
    [count_similar(miner_data, eval_data)]. *)
Theorem count_similar_comm (l1 l2 : list Entry) :
  count_similar dumps l1 l2 = count_similar dumps l2 l1.
Proof. apply count_similar_sym. Qed.

(** [count_similar] only sees the sets of fingerprints: reordering a
    dataset, or repeating or dropping copies of its records, does not change
    it. *)
Theorem count_similar_same_fingerprints (l1 l1' l2 l2' : list Entry) :
  (forall s, s ∈ map dumps l1 <-> s ∈ map dumps l1') ->
  (forall s, s ∈ map dumps l2 <-> s ∈ map dumps l2') ->
  count_similar dumps l1 l2 = count_similar dumps l1' l2'.
Proof. apply count_similar_ext. Qed.

(** [count_similar] is at most the size of either dataset, and it is 0
    exactly when no record of the first has a fingerprint of the second. *)
Theorem count_similar_bounds (l1 l2 : list Entry) :
  count_similar dumps l1 l2 <= length l1 /\
  count_similar dumps l1 l2 <= length l2 /\
  (count_similar dumps l1 l2 = 0 <-> forall e, e ∈ l1 -> dumps e ∉ map dumps l2).
Proof.
  split; [|split; [|apply count_similar_zero]].
  - pose proof (count_similar_le_filter dumps l1 l2).
    pose proof (length_filter (fun e => dumps e ∈ map dumps l2) l1). lia.
  - rewrite count_similar_sym.
    pose proof (count_similar_le_filter dumps l2 l1).
    pose proof (length_filter (fun e => dumps e ∈ map dumps l1) l2). lia.
Qed.

(** An empty miner dataset gets the status EMPTY but also
    [is_complete_duplicate = True] ([0 == 0]), so check_all_datasets counts
    and lists it among the complete duplicates. *)
Theorem check_empty_dataset_complete_duplicate (eval_data : list Entry) thr :
  exists r, check_miner_vs_eval dumps (Some []) eval_data thr = Some r /\
    check_status r = EMPTY /\ is_complete_duplicate r = true /\
    complete_duplicates (check_all_results dumps eval_data [Some (Some [])]) = 1.
Proof.
  eexists. split; [reflexivity|]. simpl.
  assert (H0 : count_similar dumps [] eval_data = 0) by reflexivity.
  try rewrite H0. split; [done|]. split; [done|].
  unfold complete_duplicates. rewrite filter_cons. simpl. try rewrite H0. simpl.
  try rewrite decide_True by done. done.
Qed.

(** For a non-empty miner dataset and a positive threshold, the status is
    NO OVERLAP exactly when no record of the miner has the fingerprint of an
    evaluation record. *)
Theorem check_status_no_overlap_iff (miner_data eval_data : list Entry) thr :
  miner_data <> [] -> 0 < thr ->
  exists r, check_miner_vs_eval dumps (Some miner_data) eval_data thr = Some r /\
    (check_status r = NO_OVERLAP <->
     forall e, e ∈ miner_data -> dumps e ∉ map dumps eval_data).
Proof.
  intros Hne Hthr. eexists. split; [reflexivity|]. simpl.
  rewrite <- count_similar_zero.
  destruct miner_data as [|m ms]; [done|]. simpl length.
  unfold determine_status.
  destruct (count_similar dumps (m :: ms) eval_data) as [|c] eqn:Ec.
  - simpl. destruct thr as [|t]; [lia|]. simpl. done.
  - simpl. repeat case_match; split; intros Hs; (discriminate || lia).
Qed.

(** The summary of check_all_datasets: directories without data.jsonl are
    not counted; a complete duplicate is a miner whose every fingerprint is
    shared; an unreadable dataset (the ERROR dict) is counted under "No
    overlap", whatever its content. *)
Theorem check_report_counts (eval_data : list Entry)
    (miners : list (option (option (list Entry)))) :
  length (check_all_results dumps eval_data miners) = length (filter is_Some miners) /\
  complete_duplicates (check_all_results dumps eval_data miners) =
    length (filter (fun m => match m with
       | Some (Some d) => Nat.eqb (count_similar dumps d eval_data) (length d)
       | _ => false end = true) miners) /\
  majority_duplicates (check_all_results dumps eval_data miners) =
    length (filter (fun m => match m with
       | Some (Some d) => Nat.leb 100 (count_similar dumps d eval_data)
       | _ => false end = true) miners) /\
  no_overlap (check_all_results dumps eval_data miners) =
    length (filter (fun m => match m with
       | Some (Some d) => Nat.eqb (count_similar dumps d eval_data) 0
       | Some None => true
       | None => false end = true) miners).
Proof.
  unfold complete_duplicates, majority_duplicates, no_overlap.
  induction miners as [|[[d|]|] ms IH]; simpl; [done| | |];
    destruct IH as (IH1 & IH2 & IH3 & IH4); rewrite !filter_cons; simpl;
    repeat case_decide; simpl; try rewrite IH1; try rewrite IH2;
    try rewrite IH3; try rewrite IH4; try done; try (exfalso; naive_solver).
Qed.

(** Check 1 of compare_datasets.py flags a miner as an evaluation-dataset
    violation exactly when check_datasets.py does not report it as a
    complete duplicate. *)
Theorem eval_violations_iff_not_complete {Id : Type} (eval_data : list Entry)
    (ds : list (Id * list Entry)) thr n :
  n ∈ eval_violations dumps eval_data ds <->
  exists d r, (n, d) ∈ ds /\
    check_miner_vs_eval dumps (Some d) eval_data thr = Some r /\
    is_complete_duplicate r = false.
Proof.
  unfold eval_violations. rewrite list_elem_of_fmap. split.
  - intros ([n' d] & -> & Hp). apply list_elem_of_filter in Hp as [Hc Hp].
    simpl in *. eexists d, _. split; [exact Hp|]. split; [reflexivity|].
    simpl. apply Nat.eqb_neq. by rewrite count_similar_sym.
  - intros (d & r & Hp & Hr & Hc). injection Hr as <-. simpl in Hc.
    apply Nat.eqb_neq in Hc. exists (n, d). split; [done|].
    apply list_elem_of_filter. split; [|done]. simpl. by rewrite count_similar_sym.
Qed.

End OverlapFacts.

(** ** Python's stable [sorted] *)

Section StableSort.

Context {A : Type} (R : relation A) `{!RelDecision R}.

Lemma insert_by_sorted (Htot : forall a b, ~ R a b -> R b a) x l :
  Sorted R l -> Sorted R (insert_by R x l).
Proof.
  induction l as [|y l IH]; intros Hs; simpl; [by repeat constructor|].
  apply Sorted_inv in Hs as [Hs Hhd].
  case_decide as Hyx.
  - constructor; [by apply IH|].
    destruct l as [|z l']; simpl; [by constructor|].
    case_decide; constructor; [|done]. by inversion Hhd.
  - constructor; [by constructor|]. constructor. by apply Htot.
Qed.

Lemma stable_sort_sorted (Htot : forall a b, ~ R a b -> R b a) l :
  Sorted R (stable_sort R l).
Proof.
  unfold stable_sort. apply fold_left_inv; [|constructor].
  intros acc x Hacc. by apply insert_by_sorted.
Qed.

Lemma insert_by_snoc x acc :
  (forall y, y ∈ acc -> R y x) -> insert_by R x acc = acc ++ [x].
Proof.
  induction acc as [|y acc IH]; intros H; simpl; [done|].
  rewrite decide_True by (apply H, list_elem_of_here).
  f_equal. apply IH. intros z Hz. apply H. by apply list_elem_of_further.
Qed.

Lemma stable_sort_id `{!Transitive R} l : Sorted R l -> stable_sort R l = l.
Proof.
  intros Hs. apply Sorted_StronglySorted in Hs; [|apply _].
  unfold stable_sort.
  assert (Hgen : forall acc, StronglySorted R (acc ++ l) ->
            fold_left (fun acc x => insert_by R x acc) l acc = acc ++ l).
  { clear Hs. induction l as [|x l IH]; intros acc Hacc; simpl; [by rewrite app_nil_r|].
    rewrite insert_by_snoc.
    - rewrite IH; [by rewrite <- app_assoc|]. by rewrite <- app_assoc.
    - intros y Hy.
      exact (StronglySorted_app_1_elem_of R acc (x :: l) y x Hacc Hy (list_elem_of_here _ _)). }
  apply (Hgen []). done.
Qed.

End StableSort.

Lemma by_dumps_total {E : Type} (d : E -> string) a b :
  ~ by_dumps d a b -> by_dumps d b a.
Proof.
  unfold by_dumps. intros H. destruct (total String.le (d a) (d b)); [done|done].
Qed.

#[global] Instance by_dumps_trans {E : Type} (d : E -> string) :
  Transitive (by_dumps d).
Proof. unfold by_dumps. intros a b c Hab Hbc. by etrans. Qed.

(** ** prepare_unique_dataset.py *)

Section UniqueProps.

Context {Entry : Type} `{!EqDecision Entry} (dumps : Entry -> string).
Context (sample : list Entry -> nat -> list Entry).

Lemma fallback_loop_spec (miners : list (list Entry)) num_needed thr cands :
  forall selected,
  max_overlap dumps selected miners <= thr -> length selected < num_needed ->
  max_overlap dumps (fallback_loop dumps miners num_needed thr cands selected) miners <= thr /\
  length (fallback_loop dumps miners num_needed thr cands selected) <= num_needed /\
  exists added, fallback_loop dumps miners num_needed thr cands selected = selected ++ added /\
    forall x, x ∈ added -> x ∈ cands.
Proof.
  induction cands as [|c cs IH]; intros sel Hov Hlen; simpl.
  - split; [done|]. split; [lia|]. exists []. rewrite app_nil_r.
    split; [done|]. intros x Hx. by apply elem_of_nil in Hx.
  - destruct (Nat.leb (max_overlap dumps (sel ++ [c]) miners) thr) eqn:Hc.
    + apply Nat.leb_le in Hc.
      destruct (Nat.leb num_needed (length (sel ++ [c]))) eqn:Hn.
      * split; [done|]. split; [rewrite length_app; simpl; lia|].
        exists [c]. split; [done|]. intros x Hx.
        apply list_elem_of_singleton in Hx as ->. apply list_elem_of_here.
      * apply Nat.leb_gt in Hn.
        destruct (IH (sel ++ [c]) Hc Hn) as (Hov' & Hlen' & added & Heq & Hin).
        split; [done|]. split; [done|]. exists (c :: added).
        rewrite Heq, <- app_assoc. split; [done|].
        intros x Hx. apply elem_of_cons in Hx as [->|Hx];
          [apply list_elem_of_here|by apply list_elem_of_further, Hin].
    + destruct (IH sel Hov Hlen) as (Hov' & Hlen' & added & Heq & Hin).
      split; [done|]. split; [done|]. exists added. split; [done|].
      intros x Hx. by apply list_elem_of_further, Hin.
Qed.

Lemma unused_no_overlap (miners : list (list Entry)) (l : list Entry) m :
  (forall e, e ∈ l -> dumps e ∉ concat (map (fp_set dumps) miners)) ->
  m ∈ miners -> count_similar dumps l m = 0.
Proof.
  intros Hl Hm. apply count_similar_zero. intros e He Hin.
  apply (Hl e He). apply list_elem_of_In, in_concat. exists (fp_set dumps m).
  split; [apply in_map, list_elem_of_In, Hm|].
  apply list_elem_of_In. unfold fp_set. by rewrite elem_of_remove_dups.
Qed.

Lemma find_unique_entries_inv
    (Hsample : forall l k, k <= length l -> sample l k ⊆+ l /\ length (sample l k) = k)
    (eval_data : list Entry) (miners : list (list Entry)) num_needed thr :
  let r := find_unique_entries dumps sample eval_data miners num_needed thr in
  length r <= num_needed /\
  (forall e, e ∈ r -> e ∈ eval_data) /\
  max_overlap dumps r miners <= thr /\
  (num_needed <= length (filter (fun e => dumps e ∉ concat (map (fp_set dumps) miners))
                   eval_data) ->
   length r = num_needed /\ forall m, m ∈ miners -> count_similar dumps r m = 0).
Proof.
  intros r. unfold r, find_unique_entries.
  set (cu := filter (fun e => dumps e ∉ concat (map (fp_set dumps) miners)) eval_data).
  assert (Hcu : forall e, e ∈ cu ->
            e ∈ eval_data /\ dumps e ∉ concat (map (fp_set dumps) miners)).
  { intros e He. apply list_elem_of_filter in He. tauto. }
  destruct (Nat.leb num_needed (length cu)) eqn:Hb.
  - apply Nat.leb_le in Hb. destruct (Hsample cu num_needed Hb) as [Hsub Hlen].
    assert (Hin : forall e, e ∈ sample cu num_needed -> e ∈ cu)
      by (intros e He; exact (elem_of_submseteq _ _ _ He Hsub)).
    assert (Hz : forall m, m ∈ miners -> count_similar dumps (sample cu num_needed) m = 0).
    { intros m Hm. apply (unused_no_overlap miners); [|done].
      intros e He. apply Hcu, Hin, He. }
    split; [lia|]. split; [intros e He; apply Hcu, Hin, He|].
    split; [apply max_overlap_le; intros m Hm; rewrite Hz; [lia|done]|].
    intros _. split; [done|exact Hz].
  - apply Nat.leb_gt in Hb.
    assert (Hov : max_overlap dumps cu miners <= thr).
    { apply max_overlap_le. intros m Hm.
      rewrite (unused_no_overlap miners cu m); [lia| |done].
      intros e He. apply Hcu, He. }
    destruct (fallback_loop_spec miners num_needed thr
                (take ((num_needed - length cu) * 10)
                   (filter (fun e => e ∉ cu) eval_data)) cu Hov Hb)
      as (Hov' & Hlen' & added & Heq & Hadd).
    split; [done|]. split; [|split; [done|intros Hn; lia]].
    intros e He. rewrite Heq in He. apply elem_of_app in He as [He|He]; [by apply Hcu|].
    apply Hadd in He. pose proof (elem_of_sublist _ _ _ He (sublist_take _ _)) as He'.
    apply list_elem_of_filter in He' as [_ He']. exact He'.
Qed.

(** [find_unique_entries] returns at most [num_needed] records of
    [eval_data] whose overlap with each miner dataset is at most
    [duplicate_threshold]. When at least [num_needed] evaluation records are
    used by no miner, it returns exactly [num_needed] of them, sharing no
    fingerprint with any miner. [random.sample(population, k)] is assumed
    to return [k] elements of the population. *)
Theorem find_unique_entries_spec
    (Hsample : forall l k, k <= length l -> sample l k ⊆+ l /\ length (sample l k) = k)
    (eval_data : list Entry) (miners : list (list Entry)) num_needed thr :
  let r := find_unique_entries dumps sample eval_data miners num_needed thr in
  length r <= num_needed /\
  (forall e, e ∈ r -> e ∈ eval_data) /\
  max_overlap dumps r miners <= thr /\
  (num_needed <= length (filter (fun e => dumps e ∉ concat (map (fp_set dumps) miners))
                   eval_data) ->
   length r = num_needed /\ forall m, m ∈ miners -> count_similar dumps r m = 0).
Proof. apply find_unique_entries_inv, Hsample. Qed.

(** When [main] of prepare_unique_dataset.py writes its output, the file has
    exactly [num_entries] records, sorted by fingerprint, a reordering of
    what [find_unique_entries] returned, and the final verification always
    finds an overlap of at most 100 with every miner (the SUCCESS branch). *)
Theorem prepare_unique_main_spec
    (Hsample : forall l k, k <= length l -> sample l k ⊆+ l /\ length (sample l k) = k)
    (eval_data : list Entry) (miners : list (list Entry)) num_entries out :
  prepare_unique_main dumps sample eval_data miners num_entries = Some out ->
  length out = num_entries /\
  Sorted (by_dumps dumps) out /\
  out ≡ₚ find_unique_entries dumps sample eval_data miners num_entries 100 /\
  max_overlap dumps out miners <= 100.
Proof.
  unfold prepare_unique_main.
  destruct (find_unique_entries_inv Hsample eval_data miners num_entries 100)
    as (Hlen & _ & Hov & _).
  set (r := find_unique_entries dumps sample eval_data miners num_entries 100) in *.
  destruct (Nat.ltb (length r) num_entries) eqn:Hlt; [discriminate|].
  intros [= <-]. apply Nat.ltb_ge in Hlt.
  pose proof (stable_sort_perm (by_dumps dumps) r) as Hp.
  split; [rewrite Hp; lia|]. split; [apply stable_sort_sorted, by_dumps_total|].
  split; [exact Hp|].
  apply max_overlap_le. intros m Hm.
  rewrite (count_similar_ext dumps _ r m m); [| |done].
  - by apply max_overlap_le with (miners := miners).
  - intros s. by rewrite Hp.
Qed.

End UniqueProps.

(** ** sort_all_datasets.py *)

Section SortFileProps.

Context {J : Type} (json_loads : string -> option J) (dumps : J -> string).
Context (write : J -> string).

(** [sort_dataset_file] leaves the file untouched (returns False) exactly when
    the file is empty or a non-blank line is not JSON. Otherwise it writes
    back one line per parsed record, a reordering of the records sorted by
    [json.dumps(x, sort_keys=True)]; blank lines are dropped. *)
Theorem sort_dataset_file_spec (lines : list string) :
  match sort_dataset_file json_loads dumps write lines with
  | None =>
      lines = [] \/
      exists l, l ∈ lines /\ strip l <> EmptyString /\ json_loads (strip l) = None
  | Some out =>
      exists data sorted,
        load_strict_lines json_loads lines = Some data /\
        sorted ≡ₚ data /\ Sorted (by_dumps dumps) sorted /\
        out = map (fun x => write x +:+ newline) sorted
  end.
Proof.
  unfold sort_dataset_file. destruct lines as [|l ls]; [by left|].
  destruct (load_strict_lines json_loads (l :: ls)) as [data|] eqn:E.
  - exists data, (stable_sort (by_dumps dumps) data).
    split; [done|]. split; [apply stable_sort_perm|].
    split; [apply stable_sort_sorted, by_dumps_total|done].
  - right. by apply load_strict_lines_none.
Qed.

Lemma load_strict_lines_written
    (Hrt : forall x, strip (write x +:+ newline) <> EmptyString /\
                     json_loads (strip (write x +:+ newline)) = Some x)
    (xs : list J) :
  load_strict_lines json_loads (map (fun x => write x +:+ newline) xs) = Some xs.
Proof.
  induction xs as [|x xs IH]; simpl; [done|].
  destruct (Hrt x) as [Hne Hx].
  destruct (String.eqb _ EmptyString) eqn:Hb; [apply String.eqb_eq in Hb; done|].
  rewrite Hx, IH. done.
Qed.

(** Sorting a file twice gives the same file as sorting it once, provided
    [json.loads] reads back each line that [json.dumps] wrote. *)
Theorem sort_dataset_file_idempotent
    (Hrt : forall x, strip (write x +:+ newline) <> EmptyString /\
                     json_loads (strip (write x +:+ newline)) = Some x)
    (lines : list string) :
  sorted_file_content json_loads dumps write
    (sorted_file_content json_loads dumps write lines) =
  sorted_file_content json_loads dumps write lines.
Proof.
  unfold sorted_file_content at 2 3.
  destruct (sort_dataset_file json_loads dumps write lines) as [out|] eqn:E;
    [|unfold sorted_file_content; by rewrite E].
  unfold sort_dataset_file in E. destruct lines as [|l ls]; [discriminate|].
  destruct (load_strict_lines json_loads (l :: ls)) as [data|]; [|discriminate].
  injection E as <-.
  set (ss := stable_sort (by_dumps dumps) data).
  unfold sorted_file_content, sort_dataset_file.
  destruct (map _ ss) as [|y ys] eqn:Em; [done|].
  rewrite <- Em, load_strict_lines_written by exact Hrt.
  rewrite (stable_sort_id (by_dumps dumps) ss); [done|].
  apply stable_sort_sorted, by_dumps_total.
Qed.

End SortFileProps.

(** ** Usage counts of analyze_top_miners.py and find_golden_entries *)

Section CountProps.

Context {Entry : Type} (dumps : Entry -> string).

Lemma counter_get_incr k j (c : list (nat * Z)) :
  counter_get k (counter_incr j c) =
  (counter_get k c + if Nat.eqb k j then 1 else 0)%Z.
Proof.
  induction c as [|[k' v] c IH]; simpl.
  - destruct (Nat.eqb k j); lia.
  - destruct (Nat.eqb_spec j k') as [->|Hjk]; simpl.
    + destruct (Nat.eqb k k'); lia.
    + rewrite IH. destruct (Nat.eqb_spec k k') as [->|]; [|done].
      destruct (Nat.eqb_spec k' j); [congruence|lia].
Qed.

Lemma counter_fold_get k (l : list nat) (c : list (nat * Z)) :
  counter_get k (fold_left (fun c i => counter_incr i c) l c) =
  (counter_get k c + Z.of_nat (length (filter (fun i => i = k) l)))%Z.
Proof.
  revert c. induction l as [|i l IH]; intros c; simpl; [lia|].
  rewrite IH, counter_get_incr, filter_cons.
  destruct (Nat.eqb_spec k i) as [->|Hki];
    [rewrite decide_True by done|rewrite decide_False by congruence]; simpl; lia.
Qed.

Lemma fold_omap_incr (f : Entry -> option nat) (l : list Entry) c :
  fold_left (fun c e => match f e with Some i => counter_incr i c | None => c end) l c =
  fold_left (fun c i => counter_incr i c) (omap f l) c.
Proof.
  revert c. induction l as [|e l IH]; intros c; simpl; [done|].
  destruct (f e); simpl; apply IH.
Qed.

Lemma filter_omap_length (f : Entry -> option nat) (l : list Entry) k :
  length (filter (fun i => i = k) (omap f l)) =
  length (filter (fun e => f e = Some k) l).
Proof.
  induction l as [|e l IH]; simpl; [done|].
  rewrite filter_cons. destruct (f e) as [i|]; simpl; [rewrite filter_cons|];
    repeat case_decide; simplify_eq; simpl; first [exact IH | f_equal; exact IH].
Qed.

Lemma golden_counts_get (eval_data : list Entry) miners idx :
  forall c,
  counter_get idx
    (fold_left (fun c m =>
        match m with
        | None => c
        | Some miner_data => golden_count_miner dumps eval_data c miner_data
        end) miners c) =
  (counter_get idx c + Z.of_nat (sum_list_with (uses_of dumps eval_data idx) miners))%Z.
Proof.
  induction miners as [|m ms IH]; intros c; simpl; [lia|].
  rewrite IH. destruct m as [md|]; simpl; [|lia].
  unfold golden_count_miner. rewrite fold_omap_incr, counter_fold_get.
  rewrite filter_omap_length. lia.
Qed.

Lemma analyze_counts_get (eval_data : list Entry) miners idx :
  forall c,
  counter_get idx
    (fold_left (fun c m =>
        match m with
        | None => c
        | Some miner_data =>
            fold_left (fun c' idx => counter_incr idx c')
              (find_entry_positions dumps miner_data eval_data) c
        end) miners c) =
  (counter_get idx c + Z.of_nat (sum_list_with (uses_of dumps eval_data idx) miners))%Z.
Proof.
  induction miners as [|m ms IH]; intros c; simpl; [lia|].
  rewrite IH. destruct m as [md|]; simpl; [|lia].
  rewrite counter_fold_get. unfold find_entry_positions.
  rewrite merge_sort_Permutation, filter_omap_length. lia.
Qed.

Lemma golden_counts_formula (eval_data : list Entry) miners idx :
  counter_get idx (golden_counts dumps eval_data miners) =
  Z.of_nat (sum_list_with (uses_of dumps eval_data idx) miners).
Proof. unfold golden_counts. rewrite golden_counts_get. simpl. lia. Qed.

(** The usage count of an evaluation position is the number of records,
    over all miner files that exist, whose fingerprint the index maps to
    that position (a miss counts 0); the counting loop of
    analyze_top_miners.py and the one of [find_golden_entries] give the
    same count for every position. *)
Theorem usage_counts_agree (eval_data : list Entry)
    (miners : list (option (list Entry))) (idx : nat) :
  counter_get idx (golden_counts dumps eval_data miners) =
    Z.of_nat (sum_list_with (uses_of dumps eval_data idx) miners) /\
  counter_get idx (analyze_entry_counts dumps eval_data miners) =
    counter_get idx (golden_counts dumps eval_data miners).
Proof.
  rewrite golden_counts_formula. split; [done|].
  unfold analyze_entry_counts. rewrite analyze_counts_get. simpl. lia.
Qed.

End CountProps.

(** ** find_golden_entries *)

Section GoldenEntriesProps.

Context {Entry : Type} (dumps : Entry -> string).

Lemma counter_incr_ok (eval_data : list Entry) j c :
  (exists e, eval_data !! j = Some e) ->
  (forall k v, (k, v) ∈ c -> (1 <= v)%Z /\ exists e, eval_data !! k = Some e) ->
  (forall k v, (k, v) ∈ counter_incr j c -> (1 <= v)%Z /\ exists e, eval_data !! k = Some e).
Proof.
  intros Hj. induction c as [|[k' v'] c IH]; intros Hc; simpl.
  - intros k v Hin. apply list_elem_of_singleton in Hin. injection Hin as -> ->.
    split; [lia|done].
  - destruct (Nat.eqb_spec j k') as [->|].
    + intros k v Hin. apply elem_of_cons in Hin as [Hin|Hin].
      * injection Hin as -> ->. destruct (Hc k' v') as [Hv Hk]; [left|].
        split; [lia|done].
      * apply Hc. by right.
    + intros k v Hin. apply elem_of_cons in Hin as [Hin|Hin].
      * apply Hc. rewrite Hin. left.
      * apply IH; [|done]. intros k1 v1 Hin1. apply Hc. by right.
Qed.

Lemma golden_counts_ok (eval_data : list Entry) miners :
  (forall k v, (k, v) ∈ golden_counts dumps eval_data miners -> (1 <= v)%Z /\ exists e, eval_data !! k = Some e).
Proof.
  unfold golden_counts. apply fold_left_inv; [|intros k v Hin; by apply elem_of_nil in Hin].
  intros c [miner_data|] Hc; [|exact Hc].
  unfold golden_count_miner. apply fold_left_inv; [|exact Hc].
  intros c' e Hc'. destruct (lookup_str _ _) as [j|] eqn:Hl; [|exact Hc'].
  apply counter_incr_ok; [|exact Hc'].
  apply build_eval_index_sound in Hl as (x & Hx & _). eauto.
Qed.

Lemma counter_get_elem k v (c : list (nat * Z)) :
  NoDup (map fst c) -> (k, v) ∈ c -> counter_get k c = v.
Proof.
  induction c as [|[k' v'] c IH]; simpl; intros Hnd Hin;
    [by apply elem_of_nil in Hin|].
  apply NoDup_cons in Hnd as [Hn Hnd].
  apply elem_of_cons in Hin as [Hin|Hin].
  - injection Hin as -> ->. by rewrite Nat.eqb_refl.
  - destruct (Nat.eqb_spec k k') as [->|]; [|by apply IH].
    exfalso. apply Hn. apply list_elem_of_In, in_map_iff.
    exists (k', v). split; [done|]. by apply list_elem_of_In.
Qed.

(** [find_golden_entries] returns pairs sorted by decreasing count, with
    pairwise distinct positions; every position holds a record of the
    evaluation set, and its count is at least 1, at least
    [int(total_miners * min_usage_pct / 100)], and equal to the number of
    miner records mapped to that position. *)
Theorem find_golden_entries_spec (eval_data : list Entry)
    (miners : list (option (list Entry))) (min_usage_pct : Z) :
  let golden := find_golden_entries dumps eval_data miners min_usage_pct in
  Sorted count_desc golden /\
  NoDup (map fst golden) /\
  forall idx c, (idx, c) ∈ golden ->
    (exists e, eval_data !! idx = Some e) /\ (1 <= c)%Z /\
    (Z.quot (total_miners miners * min_usage_pct) 100 <= c)%Z /\
    c = Z.of_nat (sum_list_with (uses_of dumps eval_data idx) miners).
Proof.
  intros golden. split; [|split].
  - apply stable_sort_sorted. unfold count_desc. intros a b H. lia.
  - apply golden_indices_NoDup.
  - intros idx c Hin. apply find_golden_entries_iff in Hin as [Hin Hmin].
    destruct (golden_counts_ok eval_data miners idx c Hin) as [Hc He].
    split; [done|]. split; [done|]. split; [done|].
    rewrite <- (counter_get_elem idx c _ (golden_counts_NoDup dumps eval_data miners) Hin).
    apply golden_counts_formula.
Qed.

End GoldenEntriesProps.

(** ** Summary of compare_datasets.py *)

Section ClusterSummary.

Context {Id D : Type} `{!EqDecision Id}.
Context (count_sim : D -> D -> nat) (threshold : nat).

Lemma cluster_groups_long (ds l : list (Id * D)) :
  forall g, g ∈ (fold_left (cluster_step count_sim threshold ds) l ([], [])).2 ->
  1 < length g.
Proof.
  apply (fold_left_inv (fun st : list Id * list (list Id) =>
           forall g, g ∈ st.2 -> 1 < length g)).
  - intros [processed groups] [i di] Hst. unfold cluster_step.
    case_decide; [exact Hst|]. case_decide as Hlen; simpl; [|exact Hst].
    intros g Hg. apply elem_of_app in Hg as [Hg|Hg]; [by apply Hst|].
    apply list_elem_of_singleton in Hg as ->. exact Hlen.
  - intros g Hg. by apply elem_of_nil in Hg.
Qed.

Lemma sum_len_pred_concat {A} (gs : list (list A)) :
  (forall g, g ∈ gs -> 1 <= length g) ->
  dup_miners gs + length gs = length (concat gs).
Proof.
  unfold dup_miners. induction gs as [|g gs IH]; simpl; intros Hg; [done|].
  rewrite length_app, <- IH by (intros g' Hg'; apply Hg; by right).
  specialize (Hg g (list_elem_of_here _ _)). lia.
Qed.

(** With pairwise distinct miner names, every duplicate group holds at
    least two miners, all of them analysed miners, and
    [sum(len(g) - 1 for g in duplicate_groups) + len(duplicate_groups)] is at
    most [len(miner_datasets)]: the printed count of unique datasets is at
    least the number of groups. *)
Theorem duplicate_groups_summary (ds : list (Id * D)) :
  NoDup ds.*1 ->
  let gs := duplicate_groups count_sim threshold ds in
  (forall g, g ∈ gs -> 2 <= length g /\ forall j, j ∈ g -> j ∈ ds.*1) /\
  dup_miners gs + length gs <= length ds.
Proof.
  intros Hnd gs.
  destruct (groups_inv_prefix count_sim threshold ds Hnd ds) as (Hcnd & _ & Hgr).
  assert (Hmem : forall g, g ∈ gs -> forall j, j ∈ g -> j ∈ ds.*1).
  { intros g Hg j Hj. destruct (Hgr g Hg) as (pre & i & di & post & Hds & _ & ->).
    apply pool_elem in Hj as [->|(_ & _ & dj & Hdj & _)];
      apply list_elem_of_fmap.
    - exists (i, di). split; [done|]. rewrite Hds. apply elem_of_app. right. left.
    - exists (j, dj). by split. }
  assert (Hlong : forall g, g ∈ gs -> 1 < length g) by apply cluster_groups_long.
  split.
  - intros g Hg. split; [apply Hlong in Hg; lia|by apply Hmem].
  - rewrite sum_len_pred_concat by (intros g Hg; apply Hlong in Hg; lia).
    rewrite <- (length_fmap fst ds).
    apply submseteq_length, NoDup_submseteq; [exact Hcnd|].
    intros x Hx. apply list_elem_of_In, in_concat in Hx as (g & Hg & Hx).
    apply (Hmem g); by apply list_elem_of_In.
Qed.

End ClusterSummary.

(** ** Verification step of prepare_golden_dataset *)

Lemma filter_omap_le {A B} (f : A -> option B) (P : B -> Prop) `{!forall y, Decision (P y)}
    (Q : A -> Prop) `{!forall x, Decision (Q x)} (l : list A) :
  (forall x y, x ∈ l -> f x = Some y -> P y -> Q x) ->
  length (filter P (omap f l)) <= length (filter Q l).
Proof.
  induction l as [|x l IH]; intros Hl; simpl; [done|].
  assert (IH' : length (filter P (omap f l)) <= length (filter Q l)).
  { apply IH. intros x' y Hx'. apply Hl. by apply list_elem_of_further. }
  change (omap f l) with (list_omap A B f l) in IH'.
  rewrite (filter_cons Q). destruct (f x) as [y|] eqn:Hf; simpl.
  - rewrite filter_cons. case_decide as HP.
    + rewrite decide_True by (apply (Hl x y); [apply list_elem_of_here|done|done]).
      simpl. lia.
    + case_decide; simpl; lia.
  - case_decide; simpl; lia.
Qed.

Section GoldenOverlap.

Context {Entry : Type} (dumps : Entry -> string).
Context (shuffle : list nat -> list nat).

(** With [ensure_unique], the only written records whose fingerprint an
    existing miner holds come from the second golden pass, capped at
    [max_reused_golden = 80]: the overlap that the verification step
    measures against each existing miner dataset is at most 80, so the
    warning for an overlap of at least 100 is never printed. *)
Theorem golden_written_overlap_le_cap
    (shuffle_perm : forall l, shuffle l ≡ₚ l)
    (eval_data : list Entry) top_miners existing target pct :
  let r := prepare_golden_dataset dumps shuffle eval_data top_miners existing
             target pct true in
  forall m, m ∈ existing ->
  (Z.of_nat (count_similar dumps (run_written r) m) <= max_reused_golden)%Z.
Proof.
  intros r m Hm. unfold r, prepare_golden_dataset.
  destruct (golden_phases dumps eval_data top_miners existing target pct true)
    as [[p2 gu] gr] eqn:Eph.
  destruct (golden_phases_spec dumps _ _ _ _ _ _ _ _ _ Eph)
    as (p1 & a2 & Hp2 & Hnd & Hok1 & Hok2 & Hcap & _).
  destruct (fill_phase dumps shuffle eval_data true _ target p2) as [p3 short] eqn:Efl.
  destruct (fill_phase_spec dumps shuffle shuffle_perm _ _ _ _ _ _ _ Efl Hnd)
    as (fill & Hp3 & Hnd3 & Hokf & _).
  simpl. unfold used_entries in *.
  set (U := concat (map (map dumps) existing)) in *.
  assert (HmU : forall s, s ∈ map dumps m -> s ∈ U).
  { intros s Hs. apply list_elem_of_In, in_concat. exists (map dumps m).
    split; [|by apply list_elem_of_In].
    apply in_map, list_elem_of_In, Hm. }
  enough (length (filter (fun e => dumps e ∈ map dumps m)
                    (omap (fun idx => eval_data !! idx) p3)) <= length a2)
    by (pose proof (count_similar_le_filter dumps
                      (omap (fun idx => eval_data !! idx) p3) m); lia).
  etrans; [apply (filter_omap_le _ _ (fun x => x ∈ a2))|].
  - intros x y Hx Hy Hdy. subst p3 p2.
    apply elem_of_app in Hx as [Hx|Hx]; [apply elem_of_app in Hx as [Hx|Hx]|].
    + destruct (Hok1 x Hx) as (e & He & Hn). rewrite He in Hy. injection Hy as ->.
      exfalso. by apply Hn, HmU.
    + exact Hx.
    + destruct (Hokf x Hx) as (e & He & Hn). rewrite He in Hy. injection Hy as ->.
      exfalso. by apply (Hn eq_refl), HmU.
  - apply submseteq_length, NoDup_submseteq; [by apply NoDup_filter|].
    intros x Hx. by apply list_elem_of_filter in Hx as [? _].
Qed.

End GoldenOverlap.

(** ** Layout of the golden selection *)

Section GoldenLayout.

Context {Entry : Type} (dumps : Entry -> string).
Context (shuffle : list nat -> list nat).

Lemma golden_reused_pass_in (eval_data : list Entry) used target golden :
  forall picked gr p gr',
  golden_reused_pass dumps eval_data used target golden picked gr = (p, gr') ->
  forall x, x ∈ p -> x ∈ picked \/ x ∈ golden.
Proof.
  induction golden as [|idx g IH]; intros picked gr p gr' Hrun x Hx; simpl in Hrun.
  - injection Hrun as <- <-. by left.
  - assert (Hrec : forall pk gk, golden_reused_pass dumps eval_data used target g pk gk
                                   = (p, gr') -> pk ⊆ idx :: picked ->
                                 x ∈ picked \/ x ∈ idx :: g).
    { intros pk gk Hr Hpk. destruct (IH _ _ _ _ Hr x Hx) as [Hp|Hp].
      - apply Hpk, elem_of_cons in Hp as [->|Hp]; [right; left|by left].
      - right. by right. }
    repeat first [case_bool_decide | case_match];
      first [injection Hrun as <- <-; by left
            | apply (Hrec _ _ Hrun); intros y Hy; rewrite elem_of_cons;
              rewrite ?elem_of_app, ?list_elem_of_singleton in Hy; tauto].
Qed.

Lemma golden_unique_pass_complete (eval_data : list Entry) used target golden :
  forall picked gu p gu',
  golden_unique_pass dumps eval_data used target golden picked gu = (p, gu') ->
  (Z.of_nat (length p) < target)%Z ->
  forall idx e, idx ∈ golden -> eval_data !! idx = Some e -> dumps e ∉ used -> idx ∈ p.
Proof.
  induction golden as [|i0 g IH]; intros picked gu p gu' Hrun Hlt idx e Hidx He Hu;
    [by apply elem_of_nil in Hidx|].
  simpl in Hrun. case_bool_decide as Hstop.
  { injection Hrun as <- <-. lia. }
  apply elem_of_cons in Hidx as [->|Hidx].
  - rewrite He in Hrun. rewrite bool_decide_eq_true_2 in Hrun by exact Hu.
    destruct (golden_unique_pass_spec dumps _ _ _ _ _ _ _ _ Hrun) as (a & -> & _).
    rewrite <- app_assoc. apply elem_of_app. right. left.
  - destruct (eval_data !! i0) as [e0|]; [case_bool_decide|];
      by apply (IH _ _ _ _ Hrun Hlt idx e).
Qed.

(** With [ensure_unique], the selected positions are the golden ones first,
    [golden_unique + golden_reused] of them, then the fill; the fill never
    takes a golden position (a skipped unused golden entry would have been
    taken by the first pass), so the printed [Golden entries] is the number
    of golden positions written. *)
Theorem golden_entries_first
    (shuffle_perm : forall l, shuffle l ≡ₚ l)
    (eval_data : list Entry) top_miners existing target pct :
  let r := prepare_golden_dataset dumps shuffle eval_data top_miners existing
             target pct true in
  let golden := map fst (find_golden_entries dumps eval_data top_miners pct) in
  exists g f,
    run_picked r = g ++ f /\
    Z.of_nat (length g) = (run_golden_unique r + run_golden_reused r)%Z /\
    (forall x, x ∈ g -> x ∈ golden) /\
    (forall x, x ∈ f -> x ∉ golden).
Proof.
  intros r golden. unfold r, prepare_golden_dataset. fold golden.
  destruct (golden_phases dumps eval_data top_miners existing target pct true)
    as [[p2 gu] gr] eqn:Eph.
  destruct (golden_phases_spec dumps _ _ _ _ _ _ _ _ _ Eph) as (_ & _ & _ & Hnd & _).
  unfold golden_phases in Eph. fold golden in Eph.
  set (used := used_entries dumps true existing) in *.
  destruct (golden_unique_pass dumps eval_data used target golden [] 0)
    as [p1 gu1] eqn:E1.
  destruct (golden_reused_pass dumps eval_data used target golden p1 0)
    as [p2' gr1] eqn:E2.
  injection Eph as <- <- <-.
  destruct (golden_unique_pass_spec dumps _ _ _ _ _ _ _ _ E1) as (a1 & Hp1 & Hgu & Hsub & _).
  simpl in Hp1. subst p1.
  destruct (golden_reused_pass_spec dumps _ _ _ _ _ _ _ _ E2) as (a2 & Hp2 & Hgr & _).
  destruct (fill_phase dumps shuffle eval_data true used target p2') as [p3 short] eqn:Efl.
  destruct (fill_phase_spec dumps shuffle shuffle_perm _ _ _ _ _ _ _ Efl Hnd)
    as (fill & Hp3 & Hnd3 & Hokf & _).
  simpl. exists p2', fill. split; [done|]. split.
  { rewrite Hp2, length_app. lia. }
  split.
  { intros x Hx. destruct (golden_reused_pass_in _ _ _ _ _ _ _ _ E2 x Hx) as [Hx'|Hx'];
      [|exact Hx']. by apply (elem_of_sublist _ _ _ Hx' Hsub). }
  intros x Hx Hg.
  unfold fill_phase in Efl. case_bool_decide as Hr.
  2:{ injection Efl as Ep _. rewrite <- Ep in Hp3.
      rewrite <- (app_nil_r p2') in Hp3 at 1. apply app_inv_head in Hp3.
      subst fill. by apply elem_of_nil in Hx. }
  destruct (Hokf x Hx) as (e & He & Hu). specialize (Hu eq_refl).
  assert (Hin1 : x ∈ a1).
  { assert (Hlt : (Z.of_nat (length a1) < target)%Z)
      by (rewrite Hp2, length_app in Hr; lia).
    exact (golden_unique_pass_complete _ _ _ _ _ _ _ _ E1 Hlt x e Hg He Hu). }
  rewrite Hp3 in Hnd3. apply NoDup_app in Hnd3 as (_ & Hdis & _).
  apply (Hdis x); [|exact Hx]. rewrite Hp2. apply elem_of_app. by left.
Qed.

End GoldenLayout.

(** ** The two loaders *)

Section Trim.

Context (is_sp : ascii -> bool) (drop : list ascii -> list ascii).
Hypothesis drop_nil : drop [] = [].
Hypothesis drop_cons : forall c l, drop (c :: l) = if is_sp c then drop l else c :: l.

Lemma drop_fix (l : list ascii) :
  match l with c :: _ => is_sp c = false | [] => True end ->
  drop l = l.
Proof. destruct l as [|c l]; [by rewrite drop_nil|]. rewrite drop_cons. by intros ->. Qed.

Lemma drop_head (l : list ascii) :
  match drop l with c :: _ => is_sp c = false | [] => True end.
Proof.
  induction l as [|c l IH]; [by rewrite drop_nil|]. rewrite drop_cons.
  destruct (is_sp c) eqn:Hc; [exact IH|exact Hc].
Qed.

Lemma drop_snoc (l : list ascii) c :
  is_sp c = false -> exists l', drop (l ++ [c]) = l' ++ [c].
Proof.
  intros Hc. induction l as [|d l IH]; simpl; rewrite drop_cons.
  - rewrite Hc. by exists [].
  - destruct (is_sp d); [exact IH|]. by exists (d :: l).
Qed.

Lemma rev_drop_head (m : list ascii) :
  match m with c :: _ => is_sp c = false | [] => True end ->
  match rev (drop (rev m)) with c :: _ => is_sp c = false | [] => True end.
Proof.
  destruct m as [|c m]; simpl; [by rewrite drop_nil|]. intros Hc.
  destruct (drop_snoc (rev m) c Hc) as [l' ->].
  rewrite rev_app_distr. simpl. exact Hc.
Qed.

Lemma trim_idem (l : list ascii) :
  rev (drop (rev (drop (rev (drop (rev (drop l))))))) = rev (drop (rev (drop l))).
Proof.
  set (m := drop l).
  rewrite (drop_fix (rev (drop (rev m)))) by (apply rev_drop_head, drop_head).
  rewrite rev_involutive, (drop_fix (drop (rev m))) by apply drop_head.
  done.
Qed.

End Trim.

(** [str.strip] is idempotent. *)
Lemma strip_idem (s : string) : strip (strip s) = strip s.
Proof.
  unfold strip. rewrite list_ascii_of_string_of_list_ascii. f_equal.
  apply (trim_idem is_py_space); [done|done].
Qed.

(** So is the JSON-whitespace strip. *)
Lemma json_strip_idem (s : string) : json_strip (json_strip s) = json_strip s.
Proof.
  unfold json_strip. rewrite list_ascii_of_string_of_list_ascii. f_equal.
  apply (trim_idem is_json_space); [done|done].
Qed.

Section LoaderAgree.

Context {J : Type} (json_loads : string -> option J).

(** Where the loader of check_datasets.py succeeds, the lenient loader of
    analyze_top_miners.py and prepare_golden_dataset.py gives the same
    records, provided [json.loads] ignores surrounding JSON whitespace
    (space, tab, line feed, carriage return) and fails on an empty text, and
    provided every line's surrounding whitespace is JSON whitespace, so that
    [line.strip()] removes what [json.loads] would skip (a line such as a
    form feed followed by [1] is excluded: the strict loader reads [1] from
    it, [json.loads] on the raw line raises). *)
Theorem strict_lenient_agree
    (Hws : forall l, json_loads l = json_loads (json_strip l))
    (Hblank : json_loads EmptyString = None)
    (lines : list string)
    (Hlines : forall l, l ∈ lines -> strip l = json_strip l)
    (data : list J) :
  load_jsonl_strict json_loads None lines = Some data ->
  load_jsonl_lenient json_loads lines = data.
Proof.
  unfold load_jsonl_strict, load_jsonl_lenient.
  destruct (load_strict_lines json_loads lines) as [d|] eqn:E; [|discriminate].
  intros [= <-]. revert d E.
  induction lines as [|l ls IH]; intros d E; simpl in E; [by injection E as <-|].
  assert (Hl : strip l = json_strip l) by (apply Hlines; left).
  assert (Hls : forall l', l' ∈ ls -> strip l' = json_strip l')
    by (intros l' Hl'; apply Hlines; by right).
  specialize (IH Hls).
  simpl. rewrite Hws, <- Hl.
  destruct (String.eqb (strip l) EmptyString) eqn:Eb.
  - apply String.eqb_eq in Eb. rewrite Eb, Hblank. by apply IH.
  - destruct (json_loads (strip l)) as [v|]; [|discriminate].
    destruct (load_strict_lines json_loads ls) as [vs|] eqn:Els; [|discriminate].
    injection E as <-. f_equal. by apply IH.
Qed.

End LoaderAgree.

(** ** Instances of the hypotheses *)

(** [random.sample] read as the first [k] elements meets the hypothesis of
    the unique-dataset properties. *)
Lemma take_sample_ok {A} (l : list A) k :
  k <= length l -> take k l ⊆+ l /\ length (take k l) = k.
Proof.
  intros Hk. split; [apply sublist_submseteq, sublist_take|].
  rewrite length_take. lia.
Qed.

Lemma count_similar_same_fingerprints_witness :
  (forall s, s ∈ map num_dumps [1; 1; 2] <-> s ∈ map num_dumps [2; 1]) /\
  (forall s, s ∈ map num_dumps [2; 3] <-> s ∈ map num_dumps [3; 2; 2]) /\
  count_similar num_dumps [1; 1; 2] [2; 3] = count_similar num_dumps [2; 1] [3; 2; 2].
Proof.
  assert (H1 : forall s, s ∈ map num_dumps [1; 1; 2] <-> s ∈ map num_dumps [2; 1])
    by (intros s; simpl; rewrite !elem_of_cons, !elem_of_nil; tauto).
  assert (H2 : forall s, s ∈ map num_dumps [2; 3] <-> s ∈ map num_dumps [3; 2; 2])
    by (intros s; simpl; rewrite !elem_of_cons, !elem_of_nil; tauto).
  split; [exact H1|]. split; [exact H2|].
  exact (count_similar_same_fingerprints num_dumps _ _ _ _ H1 H2).
Defined.

Lemma check_status_no_overlap_iff_witness :
  [1; 2] <> [] /\ 0 < 100 /\
  exists r, check_miner_vs_eval num_dumps (Some [1; 2]) [3] 100 = Some r /\
    (check_status r = NO_OVERLAP <->
     forall e, e ∈ [1; 2] -> num_dumps e ∉ map num_dumps [3]).
Proof.
  assert (Hne : [1; 2] <> []) by discriminate.
  assert (Ht : 0 < 100) by lia.
  split; [exact Hne|]. split; [exact Ht|].
  exact (check_status_no_overlap_iff num_dumps [1; 2] [3] 100 Hne Ht).
Defined.

Lemma find_unique_entries_spec_witness :
  (forall (l : list nat) k, k <= length l -> take k l ⊆+ l /\ length (take k l) = k) /\
  let r := find_unique_entries num_dumps (fun l k => take k l) [1; 2; 3; 4]
             [[1]; [2; 5]] 2 0 in
  length r <= 2 /\
  (forall e, e ∈ r -> e ∈ [1; 2; 3; 4]) /\
  max_overlap num_dumps r [[1]; [2; 5]] <= 0 /\
  (2 <= length (filter (fun e => num_dumps e ∉ concat (map (fp_set num_dumps) [[1]; [2; 5]]))
                  [1; 2; 3; 4]) ->
   length r = 2 /\ forall m, m ∈ [[1]; [2; 5]] -> count_similar num_dumps r m = 0).
Proof.
  assert (Hs : forall (l : list nat) k, k <= length l ->
                 take k l ⊆+ l /\ length (take k l) = k) by apply take_sample_ok.
  split; [exact Hs|].
  exact (find_unique_entries_spec num_dumps (fun l k => take k l) Hs _ _ _ _).
Defined.

Lemma prepare_unique_main_spec_witness :
  (forall (l : list nat) k, k <= length l -> take k l ⊆+ l /\ length (take k l) = k) /\
  prepare_unique_main num_dumps (fun l k => take k l) [1; 2; 3] [[1]] 2 = Some [2; 3] /\
  length [2; 3] = 2 /\
  Sorted (by_dumps num_dumps) [2; 3] /\
  [2; 3] ≡ₚ find_unique_entries num_dumps (fun l k => take k l) [1; 2; 3] [[1]] 2 100 /\
  max_overlap num_dumps [2; 3] [[1]] <= 100.
Proof.
  assert (Hs : forall (l : list nat) k, k <= length l ->
                 take k l ⊆+ l /\ length (take k l) = k) by apply take_sample_ok.
  assert (Hm : prepare_unique_main num_dumps (fun l k => take k l) [1; 2; 3] [[1]] 2
               = Some [2; 3]) by (vm_compute; reflexivity).
  split; [exact Hs|]. split; [exact Hm|].
  exact (prepare_unique_main_spec num_dumps (fun l k => take k l) Hs _ _ _ _ Hm).
Defined.

Lemma sort_dataset_file_idempotent_witness :
  (forall x, strip (bool_dumps x +:+ newline) <> EmptyString /\
             bool_loads (strip (bool_dumps x +:+ newline)) = Some x) /\
  let lines := ["false"; " true "; EmptyString; "false"]%string in
  sorted_file_content bool_loads bool_dumps bool_dumps
    (sorted_file_content bool_loads bool_dumps bool_dumps lines) =
  sorted_file_content bool_loads bool_dumps bool_dumps lines.
Proof.
  assert (Hrt : forall x, strip (bool_dumps x +:+ newline) <> EmptyString /\
                          bool_loads (strip (bool_dumps x +:+ newline)) = Some x)
    by (intros [|]; split; vm_compute; [discriminate|reflexivity|discriminate|reflexivity]).
  split; [exact Hrt|].
  exact (sort_dataset_file_idempotent bool_loads bool_dumps bool_dumps Hrt _).
Defined.

Lemma duplicate_groups_summary_witness :
  NoDup ([("a"%string, [1; 2; 3]); ("b"%string, [1; 2; 3]); ("c"%string, [4])]
         : list (string * list nat)).*1 /\
  let gs := duplicate_groups (count_similar num_dumps) 1
              [("a"%string, [1; 2; 3]); ("b"%string, [1; 2; 3]); ("c"%string, [4])] in
  (forall g, g ∈ gs -> 2 <= length g /\
     forall j, j ∈ g -> j ∈ ([("a"%string, [1; 2; 3]); ("b"%string, [1; 2; 3]);
                             ("c"%string, [4])] : list (string * list nat)).*1) /\
  dup_miners gs + length gs <= 3.
Proof.
  assert (H : NoDup ([("a"%string, [1; 2; 3]); ("b"%string, [1; 2; 3]); ("c"%string, [4])]
                     : list (string * list nat)).*1)
    by (apply (bool_decide_unpack _); vm_compute; exact I).
  split; [exact H|].
  exact (duplicate_groups_summary (count_similar num_dumps) 1 _ H).
Defined.

Lemma golden_written_overlap_le_cap_witness :
  (forall l : list nat, id l ≡ₚ l) /\
  let r := prepare_golden_dataset num_dumps id (seq 0 200) [Some (seq 0 100)]
             [seq 0 90; seq 50 60] 120 50 true in
  forall m, m ∈ [seq 0 90; seq 50 60] ->
  (Z.of_nat (count_similar num_dumps (run_written r) m) <= max_reused_golden)%Z.
Proof.
  assert (Hsh : forall l : list nat, id l ≡ₚ l) by (intros l; reflexivity).
  split; [exact Hsh|].
  exact (golden_written_overlap_le_cap num_dumps id Hsh _ _ _ _ _).
Defined.

Lemma golden_entries_first_witness :
  (forall l : list nat, id l ≡ₚ l) /\
  let r := prepare_golden_dataset num_dumps id [0; 1; 2; 3; 4; 5; 6; 7]
             [Some [1; 2]; Some [1; 3]; Some [1; 2; 9]] [[1; 2]; [4]] 6 50 true in
  let golden := map fst (find_golden_entries num_dumps [0; 1; 2; 3; 4; 5; 6; 7]
                           [Some [1; 2]; Some [1; 3]; Some [1; 2; 9]] 50) in
  exists g f,
    run_picked r = g ++ f /\
    Z.of_nat (length g) = (run_golden_unique r + run_golden_reused r)%Z /\
    (forall x, x ∈ g -> x ∈ golden) /\
    (forall x, x ∈ f -> x ∉ golden).
Proof.
  assert (Hsh : forall l : list nat, id l ≡ₚ l) by (intros l; reflexivity).
  split; [exact Hsh|].
  exact (golden_entries_first num_dumps id Hsh _ _ _ _ _).
Defined.

Lemma strict_lenient_agree_witness :
  (forall l, bool_loads l = bool_loads (json_strip l)) /\
  bool_loads EmptyString = None /\
  (forall l, l ∈ [" true"; "  "; "false"]%string -> strip l = json_strip l) /\
  load_jsonl_strict bool_loads None [" true"; "  "; "false"]%string = Some [true; false] /\
  load_jsonl_lenient bool_loads [" true"; "  "; "false"]%string = [true; false].
Proof.
  assert (Hws : forall l, bool_loads l = bool_loads (json_strip l))
    by (intros l; unfold bool_loads; rewrite json_strip_idem; reflexivity).
  assert (Hb : bool_loads EmptyString = None) by reflexivity.
  assert (Hls : forall l, l ∈ [" true"; "  "; "false"]%string -> strip l = json_strip l)
    by (intros l Hl; repeat (rewrite elem_of_cons in Hl; destruct Hl as [->|Hl];
          [reflexivity|]); by apply elem_of_nil in Hl).
  assert (Hl : load_jsonl_strict bool_loads None [" true"; "  "; "false"]%string
               = Some [true; false]) by (vm_compute; reflexivity).
  split; [exact Hws|]. split; [exact Hb|]. split; [exact Hls|]. split; [exact Hl|].
  exact (strict_lenient_agree bool_loads Hws Hb _ Hls _ Hl).
Defined.
